(** * Hemisphere: registration, check-in, scan log, leads and exhibitor tokens

    A shallow embedding of the JSON-file backed route handlers of the
    Hemisphere admin application and of the two scanner-page workflows that
    drive them, followed by the properties of the check-in / lead-capture
    specification that can be settled on that embedding.

    Conventions of the embedding.
    - A JavaScript string is a [string]; the helpers below are the ASCII
      restriction of [trim], [toLowerCase], [startsWith], [includes],
      [split] and [join].  Where a property of the code depends on what
      trimming or a case mapping does outside ASCII, its statement takes the
      two as given ([Scanner.Text]) or speaks of ASCII text ([isAscii]).
    - A property that may be missing from a JSON object is an [option];
      [None] stands for an absent, [undefined] or [null] property (the code
      only ever tests such properties for truthiness or through [??]).
    - An instant is the number of milliseconds since the epoch, a [Z].  A
      stored ISO-8601 text is identified with the instant it denotes, since
      [toISOString] and the [Date] constructor are inverse to each other on
      the texts the application writes.  Every handler receives the readings
      of the clock it makes as arguments, one per call of [Date.now()] or
      [new Date()].
    - A data file is a [file]: missing, unreadable, corrupt or holding a
      value.  Handlers are functions from the files they touch to a
      [response] and the files afterwards. *)

From Stdlib Require Import ZArith Ascii String DecimalString Permutation Sorted Lia.
From stdpp Require Import base option list strings gmap.

(** ** JavaScript strings *)

Module JS.

(** ASCII code points of the ECMAScript WhiteSpace and LineTerminator
    productions: TAB, LF, VT, FF, CR, SPACE. *)
Definition isSpace (c : ascii) : bool :=
  let n := nat_of_ascii c in
  ((9 <=? n) && (n <=? 13))%nat || (n =? 32)%nat.

Definition lowerChar (c : ascii) : ascii :=
  let n := nat_of_ascii c in
  if ((65 <=? n) && (n <=? 90))%nat then ascii_of_nat (n + 32) else c.

Fixpoint toLowerCase (s : string) : string :=
  match s with
  | EmptyString => EmptyString
  | String c r => String (lowerChar c) (toLowerCase r)
  end.

Fixpoint trimStart (s : string) : string :=
  match s with
  | EmptyString => EmptyString
  | String c r => if isSpace c then trimStart r else s
  end.

Fixpoint trimEnd (s : string) : string :=
  match s with
  | EmptyString => EmptyString
  | String c r =>
      match trimEnd r with
      | EmptyString => if isSpace c then EmptyString else String c EmptyString
      | r' => String c r'
      end
  end.

Definition trim (s : string) : string := trimEnd (trimStart s).

Definition startsWith (s prefix : string) : bool := String.prefix prefix s.

(** [hay.includes(needle)] *)
Fixpoint includes (hay needle : string) : bool :=
  String.prefix needle hay ||
  match hay with
  | EmptyString => false
  | String _ r => includes r needle
  end.

(** [s.split(sep)] for a one-character separator; never the empty list. *)
Fixpoint split (sep : ascii) (s : string) : list string :=
  match s with
  | EmptyString => [EmptyString]
  | String c r =>
      if Ascii.eqb c sep then EmptyString :: split sep r
      else match split sep r with
           | h :: t => String c h :: t
           | [] => [String c EmptyString]
           end
  end.

(** [parts.pop() || ""] *)
Definition pop (parts : list string) : string := List.last parts EmptyString.

(** [parts.join(sep)] *)
Fixpoint join (sep : string) (parts : list string) : string :=
  match parts with
  | [] => EmptyString
  | [p] => p
  | p :: ps => p +:+ sep +:+ join sep ps
  end.

(** [s.replace(/c/g, by)] for a one-character pattern. *)
Fixpoint replaceAll (c : ascii) (by_ : string) (s : string) : string :=
  match s with
  | EmptyString => EmptyString
  | String d r =>
      if Ascii.eqb d c then by_ +:+ replaceAll c by_ r
      else String d (replaceAll c by_ r)
  end.

(** [String(n)] for an integral number. *)
Definition ofNumber (n : Z) : string := NilZero.string_of_int (Z.to_int n).

(** Truthiness of a possibly missing string: [!!v]. *)
Definition truthy (v : option string) : bool :=
  match v with
  | Some s => negb (String.eqb s EmptyString)
  | None => false
  end.

(** [v || d] at type string. *)
Definition orElse (v : option string) (d : string) : string :=
  if truthy v then default d v else d.

(** [v ?? d] at type string. *)
Definition nullish (v : option string) (d : string) : string := default d v.

(** The double quote character and the one-character string holding it. *)
Definition dquote : ascii := ascii_of_nat 34.
Definition dq : string := String dquote EmptyString.

Definition colon : ascii := ascii_of_nat 58.

End JS.

(** ** Data files and responses *)

(** The state of one JSON document under [data/]. *)
Inductive file (A : Type) : Type :=
| Missing                (* no such file: [readFile] rejects with code ENOENT *)
| Unreadable             (* any other I/O failure of the path; it also rejects [writeFile] *)
| Corrupt                (* the text is not JSON: [JSON.parse] throws *)
| Content (v : A).
Arguments Missing {A}.
Arguments Unreadable {A}.
Arguments Corrupt {A}.
Arguments Content {A} v.

Inductive exn : Type := ENOENT | EIO | SyntaxError.

(** [JSON.parse(await readFile(path, "utf8"))] *)
Definition readJson {A} (f : file A) : exn + A :=
  match f with
  | Missing => inl ENOENT
  | Unreadable => inl EIO
  | Corrupt => inl SyntaxError
  | Content v => inr v
  end.

(** [await writeFile(path, JSON.stringify(v, null, 2))] *)
Definition writeJson {A} (f : file A) (v : A) : exn + file A :=
  match f with
  | Unreadable => inl EIO
  | _ => inr (Content v)
  end.

(** The collection a file holds, empty when it holds none. *)
Definition stored {A} (f : file (list A)) : list A :=
  match f with
  | Content v => v
  | _ => []
  end.

(** [NextResponse.json(body, {status})], split by whether the body is the
    payload of the endpoint or [{error}]. *)
Inductive response (A : Type) : Type :=
| Json (status : nat) (body : A)
| Fail (status : nat) (error : string).
Arguments Json {A} status body.
Arguments Fail {A} status error.

Definition status {A} (r : response A) : nat :=
  match r with Json s _ => s | Fail s _ => s end.

(** [res.ok] *)
Definition ok {A} (r : response A) : bool := ((200 <=? status r) && (status r <=? 299))%nat.

(** [arr.findIndex(p)], [None] for -1. *)
Fixpoint findIndex {A} (p : A -> bool) (l : list A) : option nat :=
  match l with
  | [] => None
  | x :: r => if p x then Some 0%nat else S <$> findIndex p r
  end.

(** ** The stores *)

Module Attendee.
Record t : Type := mk {
  id : string;
  firstName : option string;
  lastName : option string;
  name : option string;
  email : option string;
  company : option string;
  eventId : option string;
  createdAt : option Z;
  checkedIn : option bool;
  checkedInAt : option Z }.

Definition hasId (i : string) (a : t) : bool := String.eqb (id a) i.

(** [`${a.firstName || ""} ${a.lastName || ""}`.trim()] *)
Definition fullName (a : t) : string :=
  JS.trim (JS.orElse (firstName a) "" +:+ " " +:+ JS.orElse (lastName a) "").

Definition withName (n : string) (a : t) : t :=
  mk (id a) (firstName a) (lastName a) (Some n) (email a) (company a)
     (eventId a) (createdAt a) (checkedIn a) (checkedInAt a).

Definition withCheckIn (c : bool) (at_ : option Z) (a : t) : t :=
  mk (id a) (firstName a) (lastName a) (name a) (email a) (company a)
     (eventId a) (createdAt a) (Some c) at_.

(** [a[key] = v] for the text-valued properties of an attendee. *)
Definition assign (key : string) (v : option string) (a : t) : t :=
  if String.eqb key "id" then
    mk (default "" v) (firstName a) (lastName a) (name a) (email a) (company a)
       (eventId a) (createdAt a) (checkedIn a) (checkedInAt a)
  else if String.eqb key "firstName" then
    mk (id a) v (lastName a) (name a) (email a) (company a)
       (eventId a) (createdAt a) (checkedIn a) (checkedInAt a)
  else if String.eqb key "lastName" then
    mk (id a) (firstName a) v (name a) (email a) (company a)
       (eventId a) (createdAt a) (checkedIn a) (checkedInAt a)
  else if String.eqb key "name" then
    mk (id a) (firstName a) (lastName a) v (email a) (company a)
       (eventId a) (createdAt a) (checkedIn a) (checkedInAt a)
  else if String.eqb key "email" then
    mk (id a) (firstName a) (lastName a) (name a) v (company a)
       (eventId a) (createdAt a) (checkedIn a) (checkedInAt a)
  else if String.eqb key "company" then
    mk (id a) (firstName a) (lastName a) (name a) (email a) v
       (eventId a) (createdAt a) (checkedIn a) (checkedInAt a)
  else if String.eqb key "eventId" then
    mk (id a) (firstName a) (lastName a) (name a) (email a) (company a)
       v (createdAt a) (checkedIn a) (checkedInAt a)
  else a.

(** [!!a.checkedIn] *)
Definition isCheckedIn (a : t) : bool := default false (checkedIn a).
End Attendee.

Module ScanLog.
Record t : Type := mk {
  id : option Z;
  attendeeId : option string;
  attendeeName : option string;
  attendeeEmail : option string;
  method : option string;
  timestamp : option Z }.
End ScanLog.

Module Lead.
Record t : Type := mk {
  id : option Z;
  eventId : option string;
  attendeeId : option string;
  attendeeName : option string;
  attendeeEmail : option string;
  exhibitor : option string;
  notes : option string;
  timestamp : option Z }.
End Lead.

Module TokenRecord.
Record t : Type := mk {
  email : string;
  token : string;
  expiresAt : Z }.
End TokenRecord.

Module Event.
Record t : Type := mk {
  id : option string;
  name : option string;
  activationCode : option string }.
End Event.

(** The four documents the handlers below read and rewrite.  (The event
    file is only ever read; the two handlers that read it take it as an
    argument.) *)
Record World : Type := mkWorld {
  attendeesFile : file (list Attendee.t);
  scanlogsFile : file (list ScanLog.t);
  leadsFile : file (list Lead.t);
  tokensFile : file (list TokenRecord.t) }.

Definition setAttendees (f : file (list Attendee.t)) (w : World) : World :=
  mkWorld f (scanlogsFile w) (leadsFile w) (tokensFile w).
Definition setScanlogs (f : file (list ScanLog.t)) (w : World) : World :=
  mkWorld (attendeesFile w) f (leadsFile w) (tokensFile w).
Definition setLeads (f : file (list Lead.t)) (w : World) : World :=
  mkWorld (attendeesFile w) (scanlogsFile w) f (tokensFile w).
Definition setTokens (f : file (list TokenRecord.t)) (w : World) : World :=
  mkWorld (attendeesFile w) (scanlogsFile w) (leadsFile w) f.

(** ** Route handlers *)

(** [POST /api/register] *)
Module Register.
Record Body : Type := mkBody {
  firstName : option string;
  lastName : option string;
  email : option string;
  company : option string }.

Record Created : Type := mkCreated {
  attendee : Attendee.t;
  qrValue : string }.

(** A missing file starts the collection; any other failure is rethrown. *)
Definition readAttendees (f : file (list Attendee.t)) : exn + list Attendee.t :=
  match readJson f with
  | inl ENOENT => inr []
  | r => r
  end.

(** [String(e).trim().toLowerCase()] *)
Definition normalizeEmail (e : string) : string := JS.toLowerCase (JS.trim e).

Definition sameEmail (normalizedEmail : string) (a : Attendee.t) : bool :=
  String.eqb (normalizeEmail (JS.orElse (Attendee.email a) "")) normalizedEmail.

Definition newAttendee (nowId nowCreated : Z) (body : Body) : Attendee.t :=
  Attendee.mk (JS.ofNumber nowId) (firstName body) (lastName body) None
    (Some (normalizeEmail (default "" (email body))))
    (Some (JS.orElse (company body) "")) None (Some nowCreated) None None.

Definition POST (nowId nowCreated : Z) (body : Body) (w : World)
  : response Created * World :=
  if negb (JS.truthy (firstName body)) || negb (JS.truthy (lastName body))
     || negb (JS.truthy (email body))
  then (Fail 400 "firstName, lastName, and email are required", w)
  else
    match readAttendees (attendeesFile w) with
    | inl _ => (Fail 500 "Server error while registering attendee", w)
    | inr attendees =>
        let normalizedEmail := normalizeEmail (default "" (email body)) in
        match List.find (sameEmail normalizedEmail) attendees with
        | Some _ =>
            (Fail 409 "An attendee with this email is already registered.", w)
        | None =>
            let a := newAttendee nowId nowCreated body in
            match writeJson (attendeesFile w) (attendees ++ [a]) with
            | inl _ => (Fail 500 "Server error while registering attendee", w)
            | inr f' =>
                (Json 201 (mkCreated a ("hemisphere:" +:+ Attendee.id a)),
                 setAttendees f' w)
            end
        end
    end.
End Register.

(** [POST /api/checkin] *)
Module Checkin.
(** [id] is [String(id)] of the body; a body without [checkedIn] means [true]. *)
Record Body : Type := mkBody {
  id : string;
  checkedIn : option bool }.

Record Saved : Type := mkSaved {
  success : bool;
  attendee : Attendee.t }.

Definition apply (now : Z) (checkedIn : bool) (a : Attendee.t) : Attendee.t :=
  if checkedIn then Attendee.withCheckIn true (Some now) a
  else Attendee.withCheckIn false None a.

Definition POST (now : Z) (body : Body) (w : World) : response Saved * World :=
  match readJson (attendeesFile w) with
  | inl _ => (Fail 500 "Error saving check-in", w)
  | inr attendees =>
      match findIndex (Attendee.hasId (id body)) attendees with
      | None => (Fail 404 "Attendee not found", w)
      | Some index =>
          match attendees !! index with
          | None => (Fail 500 "Error saving check-in", w)
          | Some a =>
              let a' := apply now (default true (checkedIn body)) a in
              match writeJson (attendeesFile w) (<[index := a']> attendees) with
              | inl _ => (Fail 500 "Error saving check-in", w)
              | inr f' => (Json 200 (mkSaved true a'), setAttendees f' w)
              end
          end
      end
  end.
End Checkin.

(** [GET /api/attendees], [GET /api/attendees/:id], [PATCH /api/attendees/:id] *)
Module Attendees.
(** The comparator of the list endpoint: newest first, and 0 as soon as one
    of the two has no [createdAt]. *)
Definition newestFirst (a b : Attendee.t) : Z :=
  match Attendee.createdAt a, Attendee.createdAt b with
  | Some ta, Some tb => tb - ta
  | _, _ => 0
  end.

(** [Array.prototype.sort] is stable; on a comparator that is a total
    preorder every stable sort returns the list computed here.  (On the
    inconsistent comparator that attendees without [createdAt] produce the
    order is left to the engine; there the theorems below use only that the
    result is a permutation, and a theorem that depends on the order assumes
    that every record has its instant.) *)
Fixpoint insertBy {A} (cmp : A -> A -> Z) (x : A) (l : list A) : list A :=
  match l with
  | [] => [x]
  | y :: r => if (cmp x y <=? 0)%Z then x :: l else y :: insertBy cmp x r
  end.

Definition sortBy {A} (cmp : A -> A -> Z) (l : list A) : list A :=
  foldr (insertBy cmp) [] l.

Definition GETall (w : World) : response (list Attendee.t) :=
  match readJson (attendeesFile w) with
  | inr attendees => Json 200 (sortBy newestFirst attendees)
  | inl ENOENT => Json 200 []
  | inl _ => Fail 500 "Error reading attendees"
  end.

(** [String(rawId || "").split(":").pop()] *)
Definition idOf (rawId : string) : string := JS.pop (JS.split JS.colon rawId).

(** [{...a, name: fullName || a.name || ""}] *)
Definition named (a : Attendee.t) : Attendee.t :=
  let fullName := Attendee.fullName a in
  Attendee.withName
    (if negb (String.eqb fullName "") then fullName
     else JS.orElse (Attendee.name a) "") a.

Definition GET (rawId : string) (w : World) : response Attendee.t :=
  match readJson (attendeesFile w) with
  | inl _ => Fail 500 "Error reading attendee"
  | inr attendees =>
      match List.find (Attendee.hasId (idOf rawId)) attendees with
      | None => Fail 404 "Attendee not found"
      | Some a => Json 200 (named a)
      end
  end.

Definition fields : list string :=
  ["firstName"; "lastName"; "email"; "company"; "eventId"].

(** The [forEach] over [fields]: copy the own properties of the payload. *)
Definition update (payload : gmap string (option string)) (current : Attendee.t)
  : Attendee.t :=
  foldl (fun updated field =>
           match payload !! field with
           | Some v => Attendee.assign field v updated
           | None => updated
           end) current fields.

Record Patched : Type := mkPatched {
  success : bool;
  attendee : Attendee.t }.

Definition PATCH (rawId : string) (payload : gmap string (option string)) (w : World)
  : response Patched * World :=
  match readJson (attendeesFile w) with
  | inl _ => (Fail 500 "Error updating attendee", w)
  | inr attendees =>
      match findIndex (Attendee.hasId (idOf rawId)) attendees with
      | None => (Fail 404 "Attendee not found", w)
      | Some index =>
          match attendees !! index with
          | None => (Fail 500 "Error updating attendee", w)
          | Some current =>
              let updated := update payload current in
              match writeJson (attendeesFile w) (<[index := updated]> attendees) with
              | inl _ => (Fail 500 "Error updating attendee", w)
              | inr f' => (Json 200 (mkPatched true (named updated)), setAttendees f' w)
              end
          end
      end
  end.
End Attendees.

(** [GET /api/scanlog], [POST /api/scanlog], [GET /api/scanlog/export] *)
Module Scanlog.
Definition GET (w : World) : response (list ScanLog.t) :=
  match readJson (scanlogsFile w) with
  | inr logs => Json 200 logs
  | inl _ => Fail 500 "Cannot read scan logs"
  end.

Record Body : Type := mkBody {
  attendeeId : option string;
  attendeeName : option string;
  attendeeEmail : option string;
  method : option string }.

Definition newLog (nowId nowStamp : Z) (body : Body) : ScanLog.t :=
  ScanLog.mk (Some nowId) (attendeeId body) (attendeeName body) (attendeeEmail body)
    (Some (JS.orElse (method body) "scan")) (Some nowStamp).

Definition POST (nowId nowStamp : Z) (body : Body) (w : World)
  : response ScanLog.t * World :=
  match readJson (scanlogsFile w) with
  | inl _ => (Fail 500 "Unable to save scan", w)
  | inr logs =>
      let l := newLog nowId nowStamp body in
      match writeJson (scanlogsFile w) (logs ++ [l]) with
      | inl _ => (Fail 500 "Unable to save scan", w)
      | inr f' => (Json 200 l, setScanlogs f' w)
      end
  end.

Definition headers : list string :=
  ["id"; "attendeeId"; "attendeeName"; "attendeeEmail"; "timestamp"].

(** The [map] callback of a row: quote-escape, then wrap in quotes. *)
Definition cell (str : string) : string :=
  JS.dq +:+ JS.replaceAll JS.dquote (JS.dq +:+ JS.dq) str +:+ JS.dq.

(** [String(log.f ?? "")] of the five exported properties.  [toISOString]
    renders a stored instant as the text the file holds for it. *)
Definition values (toISOString : Z -> string) (log : ScanLog.t) : list string :=
  [ from_option JS.ofNumber "" (ScanLog.id log);
    JS.nullish (ScanLog.attendeeId log) "";
    JS.nullish (ScanLog.attendeeName log) "";
    JS.nullish (ScanLog.attendeeEmail log) "";
    from_option toISOString "" (ScanLog.timestamp log) ].

Definition row (toISOString : Z -> string) (log : ScanLog.t) : string :=
  JS.join "," (cell <$> values toISOString log).

Definition lines (toISOString : Z -> string) (logs : list ScanLog.t) : list string :=
  JS.join "," headers :: (row toISOString <$> logs).

(** Both the read and the parse fall back to the empty log. *)
Definition readLogs (f : file (list ScanLog.t)) : list ScanLog.t :=
  match readJson f with
  | inr logs => logs
  | inl _ => []
  end.

Definition newline : string := String (ascii_of_nat 10) EmptyString.

(** The body is the CSV text. *)
Definition export (toISOString : Z -> string) (w : World) : response string :=
  Json 200 (JS.join newline (lines toISOString (readLogs (scanlogsFile w)))).
End Scanlog.

(** [GET /api/events], [POST /api/activate] *)
Module Events.
Definition GET (f : file (list Event.t)) : response (list Event.t) :=
  match readJson f with
  | inr events => Json 200 events
  | inl ENOENT => Json 200 []
  | inl _ => Fail 500 "Error reading events"
  end.

(** Any failure is treated as an empty collection. *)
Definition readEventsFile (f : file (list Event.t)) : list Event.t :=
  match readJson f with
  | inr events => events
  | inl _ => []
  end.

Record Activated : Type := mkActivated {
  eventId : option string;
  eventName : option string }.

Definition hasCode (code : string) (evt : Event.t) : bool :=
  match Event.activationCode evt with
  | Some c => String.eqb (JS.toLowerCase c) (JS.toLowerCase code)
  | None => false
  end.

(** [code] is the [code] property of the body. *)
Definition activate (code : option string) (f : file (list Event.t)) : response Activated :=
  let code := JS.trim (JS.orElse code "") in
  if String.eqb code "" then Fail 400 "Activation code is required"
  else
    match List.find (hasCode code) (readEventsFile f) with
    | None => Fail 401 "Invalid activation code"
    | Some event => Json 200 (mkActivated (Event.id event) (Event.name event))
    end.
End Events.

(** A request as far as the lead handlers can see it. *)
Record Request (B : Type) : Type := mkRequest {
  authorization : option string;
  json : B }.
Arguments mkRequest {B} authorization json.
Arguments authorization {B} r.
Arguments json {B} r.

(** [GET /api/leads], [POST /api/leads] *)
Module Leads.
(** Any failure is treated as an empty collection. *)
Definition readLeadsFile (f : file (list Lead.t)) : list Lead.t :=
  match readJson f with
  | inr leads => leads
  | inl _ => []
  end.

Definition GET (w : World) : response (list Lead.t) :=
  Json 200 (readLeadsFile (leadsFile w)).

Record Body : Type := mkBody {
  eventId : option string;
  attendeeId : option string;
  attendeeName : option string;
  attendeeEmail : option string;
  exhibitor : option string;
  notes : option string }.

Definition newLead (nowId nowStamp : Z) (body : Body) : Lead.t :=
  Lead.mk (Some nowId) (Some (JS.orElse (eventId body) "unknown_event"))
    (attendeeId body) (attendeeName body) (attendeeEmail body)
    (Some (JS.orElse (exhibitor body) "Unknown Exhibitor"))
    (Some (JS.orElse (notes body) "")) (Some nowStamp).

(** Only the JSON body of the request is read. *)
Definition POST (nowId nowStamp : Z) (request : Request Body) (w : World)
  : response Lead.t * World :=
  let body := json request in
  let leads := readLeadsFile (leadsFile w) in
  let l := newLead nowId nowStamp body in
  match writeJson (leadsFile w) (leads ++ [l]) with
  | inl _ => (Fail 500 "Unable to save lead", w)
  | inr f' => (Json 201 l, setLeads f' w)
  end.
End Leads.

(** [GET /api/exhibitors/leads] *)
Module ExhibitorLeads.
Definition readTokens (f : file (list TokenRecord.t)) : exn + list TokenRecord.t :=
  match readJson f with
  | inl ENOENT => inr []
  | r => r
  end.

Definition readLeads (f : file (list Lead.t)) : exn + list Lead.t :=
  match readJson f with
  | inl ENOENT => inr []
  | r => r
  end.

Definition isTokenValid (now : Z) (token : string) (records : list TokenRecord.t)
  : option TokenRecord.t :=
  List.find (fun t => String.eqb (TokenRecord.token t) token
                      && (now <? TokenRecord.expiresAt t)%Z) records.

(** [auth.toLowerCase().startsWith("bearer ") ? auth.split(" ")[1] : ""] *)
Definition bearer (auth : string) : string :=
  if JS.startsWith (JS.toLowerCase auth) "bearer "
  then nth 1 (JS.split (ascii_of_nat 32) auth) EmptyString
  else EmptyString.

Definition normalize (l : Lead.t) : Lead.t :=
  Lead.mk (Lead.id l)
    (Some (JS.orElse (Lead.eventId l) ""))
    (Some (JS.nullish (Lead.attendeeId l) ""))
    (Some (JS.orElse (Lead.attendeeName l) ""))
    (Some (JS.orElse (Lead.attendeeEmail l) ""))
    (Some (JS.orElse (Lead.exhibitor l) ""))
    (Some (JS.orElse (Lead.notes l) ""))
    (Lead.timestamp l).

Record Portal : Type := mkPortal {
  leads : list Lead.t;
  email : string }.

Definition GET (now : Z) (request : Request unit) (w : World)
  : response Portal * World :=
  let auth := JS.orElse (authorization request) "" in
  let token := bearer auth in
  if String.eqb token "" then (Fail 401 "Missing token", w)
  else
    match readTokens (tokensFile w) with
    | inl _ => (Fail 500 "Error fetching leads", w)
    | inr tokens =>
        match isTokenValid now token tokens with
        | None => (Fail 401 "Invalid or expired token", w)
        | Some valid =>
            match readLeads (leadsFile w) with
            | inl _ => (Fail 500 "Error fetching leads", w)
            | inr leads =>
                (Json 200 (mkPortal (normalize <$> leads) (TokenRecord.email valid)), w)
            end
        end
    end.
End ExhibitorLeads.

(** [POST /api/exhibitors/request-link] *)
Module RequestLink.
Definition readTokens (f : file (list TokenRecord.t)) : exn + list TokenRecord.t :=
  match readJson f with
  | inl ENOENT => inr []
  | r => r
  end.

Record Link : Type := mkLink {
  success : bool;
  loginUrl : string;
  expiresAt : Z;
  email : string }.

(** [String(email || "").trim().toLowerCase()] *)
Definition normalizeEmail (email : option string) : string :=
  JS.toLowerCase (JS.trim (JS.orElse email "")).

Definition hour : Z := 60 * 60 * 1000.

(** [uuid] is the value [crypto.randomUUID()] returns to this request. *)
Definition POST (now : Z) (uuid : string) (email : option string) (w : World)
  : response Link * World :=
  let normalizedEmail := normalizeEmail email in
  if String.eqb normalizedEmail ""
  then (Fail 400 "Email is required to request a login link.", w)
  else
    match readTokens (tokensFile w) with
    | inl _ => (Fail 500 "Error issuing login link", w)
    | inr tokens =>
        let validTokens :=
          List.filter (fun t => (now <? TokenRecord.expiresAt t)%Z) tokens in
        let expiresAt := (now + hour)%Z in
        let written := validTokens ++ [TokenRecord.mk normalizedEmail uuid expiresAt] in
        match writeJson (tokensFile w) written with
        | inl _ => (Fail 500 "Error issuing login link", w)
        | inr f' =>
            (Json 200 (mkLink true ("/exhibitors?token=" +:+ uuid) expiresAt normalizedEmail),
             setTokens f' w)
        end
    end.
End RequestLink.

(** ** The scanner page: [handleScanResult] and [handleManualCheckin] *)

Module Scanner.
Inductive ScanState : Type := Idle | Scanning | Found | Errored.

(** The React state of the page that the two handlers set. *)
Record Ui : Type := mkUi {
  scanState : ScanState;
  message : string;
  lastValue : string;
  lastMethod : string;
  attendee : option Attendee.t;
  isScanningEnabled : bool;
  manualName : string }.

(** The clock readings of the requests one handler run can make: the one
    of [POST /api/checkin] and the two of [POST /api/scanlog]. *)
Record Clock : Type := mkClock {
  atCheckin : Z;
  atLogId : Z;
  atLogStamp : Z }.

(** The payload printed on a badge. *)
Definition qrValue (id : string) : string := "hemisphere:" +:+ id.

(** From the raw code to the attendee id looked up. *)
Definition scanId (raw : string) : string :=
  let trimmed := JS.trim raw in
  let normalized :=
    if JS.startsWith (JS.toLowerCase trimmed) "hemisphere:" then trimmed
    else "hemisphere:" +:+ trimmed in
  JS.pop (JS.split JS.colon normalized).

(** [found.name || `${found.firstName || ""} ${found.lastName || ""}`.trim() || "Attendee"] *)
Definition displayName (found : Attendee.t) : string :=
  if JS.truthy (Attendee.name found) then default "" (Attendee.name found)
  else if negb (String.eqb (Attendee.fullName found) "") then Attendee.fullName found
  else "Attendee".

(** [res.ok ? await res.json() : null] *)
Definition jsonIfOk {A} (r : response A) : option A :=
  match r with
  | Json _ body => if ok r then Some body else None
  | Fail _ _ => None
  end.

(** The direct lookup, then the fallback through the full list.  The id
    travels percent-encoded in the path and the router decodes it: the
    handler receives it unchanged. *)
Definition lookup (id : string) (w : World) : option Attendee.t :=
  match jsonIfOk (Attendees.GET id w) with
  | Some found => Some found
  | None =>
      match jsonIfOk (Attendees.GETall w) with
      | Some all => List.find (Attendee.hasId id) all
      | None => None
      end
  end.

Definition logBody (method : string) (found : Attendee.t) : Scanlog.Body :=
  Scanlog.mkBody (Some (Attendee.id found)) (Some (displayName found))
    (Attendee.email found) (Some method).

Definition shown (found : Attendee.t) : option Attendee.t :=
  Some (Attendee.withName (displayName found) found).

Definition handleScanResult (raw : string) (clock : Clock) (st : Ui * World)
  : Ui * World :=
  let '(ui, w) := st in
  let id := scanId raw in
  if String.eqb id "" then
    (mkUi Errored
       ("Could not read attendee ID from code: " +:+ JS.dq +:+ raw +:+ JS.dq)
       raw "scan" None false (manualName ui), w)
  else
    match lookup id w with
    | None =>
        (mkUi Errored ("No attendee found for ID " +:+ id +:+ ".")
           raw "scan" None false (manualName ui), w)
    | Some found =>
        if Attendee.isCheckedIn found then
          (mkUi Found ("Already checked in: " +:+ displayName found)
             raw "scan" (shown found) false (manualName ui),
           snd (Scanlog.POST (atLogId clock) (atLogStamp clock) (logBody "scan" found) w))
        else
          let w1 := snd (Checkin.POST (atCheckin clock) (Checkin.mkBody id (Some true)) w) in
          (mkUi Found ("Checked in: " +:+ displayName found)
             raw "scan" (shown found) false (manualName ui),
           snd (Scanlog.POST (atLogId clock) (atLogStamp clock) (logBody "scan" found) w1))
    end.

(** The text functions of the runtime that the manual search applies to the
    term and to the names: [String.prototype.trim] and
    [String.prototype.toLowerCase].  The search is stated over them as given,
    so that it is the search of the code on every name, also outside ASCII;
    [asciiText] is what the two do on ASCII text. *)
Record Text : Type := mkText {
  trimOf : string -> string;
  lowerOf : string -> string }.

Definition asciiText : Text := mkText JS.trim JS.toLowerCase.

(** [`${a.firstName || ""} ${a.lastName || ""}`.trim()] *)
Definition fullNameOf (tx : Text) (a : Attendee.t) : string :=
  trimOf tx (JS.orElse (Attendee.firstName a) "" +:+ " "
             +:+ JS.orElse (Attendee.lastName a) "").

(** [found.name || `${found.firstName || ""} ${found.lastName || ""}`.trim() || "Attendee"] *)
Definition displayNameOf (tx : Text) (found : Attendee.t) : string :=
  if JS.truthy (Attendee.name found) then default "" (Attendee.name found)
  else if negb (String.eqb (fullNameOf tx found) "") then fullNameOf tx found
  else "Attendee".

Definition logBodyOf (tx : Text) (method : string) (found : Attendee.t) : Scanlog.Body :=
  Scanlog.mkBody (Some (Attendee.id found)) (Some (displayNameOf tx found))
    (Attendee.email found) (Some method).

Definition shownOf (tx : Text) (found : Attendee.t) : option Attendee.t :=
  Some (Attendee.withName (displayNameOf tx found) found).

(** The predicate of the manual search, on the lower-cased term:
    [fullName.toLowerCase().includes(lower)]. *)
Definition nameMatches (tx : Text) (lower : string) (a : Attendee.t) : bool :=
  JS.includes (lowerOf tx (fullNameOf tx a)) lower.

Definition handleManualCheckin (tx : Text) (clock : Clock) (st : Ui * World)
  : Ui * World :=
  let '(ui, w) := st in
  let term := trimOf tx (manualName ui) in
  if String.eqb term "" then
    (mkUi (scanState ui) "Please type a name before checking in manually."
       (lastValue ui) (lastMethod ui) (attendee ui) (isScanningEnabled ui)
       (manualName ui), w)
  else
    match jsonIfOk (Attendees.GETall w) with
    | None =>
        (mkUi Errored "Could not load attendees. Try again."
           term "manual" None false (manualName ui), w)
    | Some list =>
        match List.find (nameMatches tx (lowerOf tx term)) list with
        | None =>
            (mkUi Errored
               ("No attendee found matching " +:+ JS.dq +:+ term +:+ JS.dq +:+ ".")
               term "manual" None false (manualName ui), w)
        | Some found =>
            if Attendee.isCheckedIn found then
              (mkUi Found ("Already checked in: " +:+ displayNameOf tx found)
                 term "manual" (shownOf tx found) false (manualName ui),
               snd (Scanlog.POST (atLogId clock) (atLogStamp clock)
                      (logBodyOf tx "manual" found) w))
            else
              let w1 := snd (Checkin.POST (atCheckin clock)
                               (Checkin.mkBody (Attendee.id found) (Some true)) w) in
              (mkUi Found ("Checked in (manual): " +:+ displayNameOf tx found)
                 term "manual" (shownOf tx found) false (manualName ui),
               snd (Scanlog.POST (atLogId clock) (atLogStamp clock)
                      (logBodyOf tx "manual" found) w1))
        end
    end.

(** The same code held to the camera once per clock of the list. *)
Fixpoint scanRepeatedly (raw : string) (clocks : list Clock) (st : Ui * World)
  : Ui * World :=
  match clocks with
  | [] => st
  | c :: cs => scanRepeatedly raw cs (handleScanResult raw c st)
  end.
End Scanner.

(** ** The handlers as one transition system *)

(** A request that may rewrite a data file. *)
Inductive Call : Type :=
| CallRegister (nowId nowCreated : Z) (body : Register.Body)
| CallCheckin (now : Z) (body : Checkin.Body)
| CallPatch (rawId : string) (payload : gmap string (option string))
| CallScanlog (nowId nowStamp : Z) (body : Scanlog.Body)
| CallLead (nowId nowStamp : Z) (request : Request Leads.Body)
| CallExhibitorLeads (now : Z) (request : Request unit)
| CallRequestLink (now : Z) (uuid : string) (email : option string).

Definition perform (c : Call) (w : World) : World :=
  match c with
  | CallRegister nowId nowCreated body => snd (Register.POST nowId nowCreated body w)
  | CallCheckin now body => snd (Checkin.POST now body w)
  | CallPatch rawId payload => snd (Attendees.PATCH rawId payload w)
  | CallScanlog nowId nowStamp body => snd (Scanlog.POST nowId nowStamp body w)
  | CallLead nowId nowStamp request => snd (Leads.POST nowId nowStamp request w)
  | CallExhibitorLeads now request => snd (ExhibitorLeads.GET now request w)
  | CallRequestLink now uuid email => snd (RequestLink.POST now uuid email w)
  end.


(** ** Notions used by the statements *)


Fixpoint allChars (p : ascii -> bool) (s : string) : bool :=
  match s with
  | EmptyString => true
  | String c r => p c && allChars p r
  end.

(** An id that survives the scanner: not empty, no white space around it
    and no colon in it. *)
Record WellFormedId (id : string) : Prop := {
  wf_nonempty : id <> EmptyString;
  wf_trimmed : JS.trim id = id;
  wf_no_colon : JS.includes id ":" = false }.

(** [QuotesDoubled v e]: [e] is [v] with every double quote written twice
    and every other character kept. *)
Inductive QuotesDoubled : string -> string -> Prop :=
| qd_nil : QuotesDoubled EmptyString EmptyString
| qd_quote v e :
    QuotesDoubled v e ->
    QuotesDoubled (String JS.dquote v) (String JS.dquote (String JS.dquote e))
| qd_other c v e :
    c <> JS.dquote -> QuotesDoubled v e -> QuotesDoubled (String c v) (String c e).

(** The two ways a data file can be unreadable or corrupt. *)
Inductive Damage : Type := IoFailure | BadJson.

Definition damaged {A} (d : Damage) : file A :=
  match d with
  | IoFailure => Unreadable
  | BadJson => Corrupt
  end.


(** Text of ASCII characters only: there the ASCII case mappings of this
    file are those of the runtime. *)
Definition isAscii (s : string) : bool :=
  allChars (fun c => (nat_of_ascii c <? 128)%nat) s.

(** The entry one scan of attendee [a] appends at clock [c]. *)
Definition scanEntry (a : Attendee.t) (c : Scanner.Clock) : ScanLog.t :=
  Scanlog.newLog (Scanner.atLogId c) (Scanner.atLogStamp c)
    (Scanner.logBody "scan" (Attendees.named a)).

(** The attendee file can be listed: it is there, or not there yet. *)
Definition listable (f : file (list Attendee.t)) : Prop :=
  f = Missing \/ exists l, f = Content l.

Definition valid (body : Register.Body) : Prop :=
  JS.truthy (Register.firstName body) = true
  /\ JS.truthy (Register.lastName body) = true
  /\ JS.truthy (Register.email body) = true.


(** Case analysis on every [match] of an unfolded handler. *)
Ltac crush_handler :=
  repeat match goal with
         | |- context [match ?x with _ => _ end] => destruct x; simpl
         end;
  try reflexivity.

(** ** Further handlers and pages *)

(** The requests of a list, served one after the other. *)
Definition run (calls : list Call) (w : World) : World :=
  foldl (fun w c => perform c w) w calls.

Definition isScanlogCall (c : Call) : bool :=
  match c with
  | CallScanlog _ _ _ => true
  | _ => false
  end.

Definition isLeadCall (c : Call) : bool :=
  match c with
  | CallLead _ _ _ => true
  | _ => false
  end.

(** [GET /api/exhibitors/list] *)
Module Roster.
Definition upperChar (c : ascii) : ascii :=
  let n := nat_of_ascii c in
  if ((97 <=? n) && (n <=? 122))%nat then ascii_of_nat (n - 32) else c.

Fixpoint toUpperCase (s : string) : string :=
  match s with
  | EmptyString => EmptyString
  | String c r => String (upperChar c) (toUpperCase r)
  end.

(** The character class [[A-Z0-9]]. *)
Definition isCodeChar (c : ascii) : bool :=
  let n := nat_of_ascii c in
  ((65 <=? n) && (n <=? 90))%nat || ((48 <=? n) && (n <=? 57))%nat.

(** [s.replace(/[^A-Z0-9]/g, "")] *)
Fixpoint keepCodeChars (s : string) : string :=
  match s with
  | EmptyString => EmptyString
  | String c r => if isCodeChar c then String c (keepCodeChars r) else keepCodeChars r
  end.

(** [s.slice(0, 6)] *)
Definition slice6 (s : string) : string := String.substring 0 6 s.

(** [name.trim().toUpperCase().replace(/[^A-Z0-9]/g, "") || "EXHIBITOR"] *)
Definition base (name : string) : string :=
  let cleaned := keepCodeChars (toUpperCase (JS.trim name)) in
  if String.eqb cleaned "" then "EXHIBITOR" else cleaned.

(** [sha256Hex] is the hex digest of SHA-256, a function of the runtime. *)
Definition makeActivationCode (sha256Hex : string -> string) (name : string) : string :=
  let hash := toUpperCase (slice6 (sha256Hex (base name))) in
  slice6 (base name) +:+ "-" +:+ hash.

Definition readLeads (f : file (list Lead.t)) : exn + list Lead.t :=
  match readJson f with
  | inl ENOENT => inr []
  | r => r
  end.

(** [names.add(n)] on a [Set] kept in insertion order. *)
Definition add (names : list string) (n : string) : list string :=
  if existsb (String.eqb n) names then names else names ++ [n].

(** The [forEach] that collects the trimmed exhibitor of every lead that has one. *)
Definition names (leads : list Lead.t) : list string :=
  foldl (fun names l =>
           if JS.truthy (Lead.exhibitor l)
           then add names (JS.trim (default "" (Lead.exhibitor l)))
           else names) [] leads.

Record Exhibitor : Type := mkExhibitor {
  name : string;
  activationCode : string }.

Definition GET (sha256Hex : string -> string) (w : World) : response (list Exhibitor) :=
  match readLeads (leadsFile w) with
  | inl _ => Fail 500 "Error reading exhibitors"
  | inr leads =>
      Json 200 ((fun n => mkExhibitor n (makeActivationCode sha256Hex n)) <$> names leads)
  end.
End Roster.

(** The check-in page of the admin: [exportCheckinCsv] *)
Module CheckInPage.
Definition headers : list string :=
  ["Name"; "Email"; "Company"; "EventId"; "CheckedIn"; "CheckedInAt";
   "ScannedViaQr"; "LastScanAt"; "Id"].

(** The value with its double quotes doubled, between two double quotes. *)
Definition escape (value : string) : string :=
  JS.dq +:+ JS.replaceAll JS.dquote (JS.dq +:+ JS.dq) value +:+ JS.dq.

(** [String(log.attendeeId)] *)
Definition logKey (log : ScanLog.t) : string :=
  default "undefined" (ScanLog.attendeeId log).

(** One step of the [forEach] that fills [latestScanById]; a stored [None]
    is the empty text of a log without timestamp. *)
Definition noteScan (latest : gmap string (option Z)) (log : ScanLog.t)
  : gmap string (option Z) :=
  let id := logKey log in
  let ts := ScanLog.timestamp log in
  match latest !! id with
  | Some (Some existing) =>
      match ts with
      | Some t => if (existing <? t)%Z then <[id := ts]> latest else latest
      | None => latest
      end
  | _ => <[id := ts]> latest
  end.

Definition latestScanById (scanLogs : list ScanLog.t) : gmap string (option Z) :=
  foldl noteScan ∅ scanLogs.

(** [latestScanById.get(String(a.id)) || ""] *)
Definition lastScan (latest : gmap string (option Z)) (a : Attendee.t) : option Z :=
  default None (latest !! Attendee.id a).

Definition yesNo (b : bool) : string := if b then "Yes" else "No".

Definition cells (toISOString : Z -> string) (latest : gmap string (option Z))
    (a : Attendee.t) : list string :=
  [ Attendee.fullName a;
    JS.orElse (Attendee.email a) "";
    JS.orElse (Attendee.company a) "";
    JS.orElse (Attendee.eventId a) "";
    yesNo (Attendee.isCheckedIn a);
    from_option toISOString "" (Attendee.checkedInAt a);
    yesNo (bool_decide (is_Some (lastScan latest a)));
    from_option toISOString "" (lastScan latest a);
    Attendee.id a ].

Definition row (toISOString : Z -> string) (latest : gmap string (option Z))
    (a : Attendee.t) : string :=
  JS.join "," (escape <$> cells toISOString latest a).

(** The text handed to the download, [None] when the page returns early. *)
Definition exportCheckinCsv (toISOString : Z -> string)
    (attendees : list Attendee.t) (scanLogs : list ScanLog.t) : option string :=
  match attendees with
  | [] => None
  | _ =>
      let latest := latestScanById scanLogs in
      Some (JS.join Scanlog.newline
              (JS.join "," headers :: (row toISOString latest <$> attendees)))
  end.
End CheckInPage.

(** The scanner analytics page: [loadLogs], [handleDownloadCsv], [formatHour] *)
Module AnalyticsPage.
(** [new Date(b.timestamp).getTime() - new Date(a.timestamp).getTime()], where
    a missing timestamp makes the difference NaN, which the sort reads as 0. *)
Definition newestFirst (a b : ScanLog.t) : Z :=
  match ScanLog.timestamp a, ScanLog.timestamp b with
  | Some ta, Some tb => tb - ta
  | _, _ => 0
  end.

(** The logs the page holds after [loadLogs]: spreading the error body of a
    failed read throws, and the state keeps its initial empty list. *)
Definition loadLogs (w : World) : list ScanLog.t :=
  match Scanlog.GET w with
  | Json _ data => Attendees.sortBy newestFirst data
  | Fail _ _ => []
  end.

Definition headers : list string :=
  ["id"; "attendeeId"; "attendeeName"; "attendeeEmail"; "timestamp"].

Definition quoted (str : string) : string :=
  JS.dq +:+ JS.replaceAll JS.dquote (JS.dq +:+ JS.dq) str +:+ JS.dq.

Definition row (toISOString : Z -> string) (log : ScanLog.t) : string :=
  JS.join ","
    (quoted <$> [ from_option JS.ofNumber "" (ScanLog.id log);
                  JS.nullish (ScanLog.attendeeId log) "";
                  JS.nullish (ScanLog.attendeeName log) "";
                  JS.nullish (ScanLog.attendeeEmail log) "";
                  from_option toISOString "" (ScanLog.timestamp log) ]).

(** The text handed to the download, [None] when the page only alerts. *)
Definition handleDownloadCsv (toISOString : Z -> string) (logs : list ScanLog.t)
  : option string :=
  match logs with
  | [] => None
  | _ => Some (JS.join Scanlog.newline
                 (JS.join "," headers :: (row toISOString <$> logs)))
  end.

(** [logs.length > 0 ? new Date(logs[0].timestamp) : null], as an instant. *)
Definition lastScan (logs : list ScanLog.t) : option Z :=
  match logs with
  | [] => None
  | l :: _ => ScanLog.timestamp l
  end.

Definition formatHour (h : Z) : string :=
  let ampm := if (12 <=? h)%Z then "PM" else "AM" in
  let hour12 := if (Z.rem h 12 =? 0)%Z then 12%Z else Z.rem h 12 in
  JS.ofNumber hour12 +:+ " " +:+ ampm.
End AnalyticsPage.

(** The exhibitor lead page: [captureLead] *)
Module LeadPage.

End LeadPage.

(** The dashboard of the admin page: the filters and the totals *)
Module AdminPage.
Record Filters : Type := mkFilters {
  search : string;
  statusFilter : string;
  eventFilter : string;
  companyFilter : string }.

(** An attendee without event passes every event filter. *)
Definition matchesEvent (fl : Filters) (a : Attendee.t) : bool :=
  String.eqb (eventFilter fl) "all"
  || (if JS.truthy (Attendee.eventId a)
      then String.eqb (default "" (Attendee.eventId a)) (eventFilter fl)
      else true).

Definition matchesCompany (fl : Filters) (a : Attendee.t) : bool :=
  String.eqb (companyFilter fl) "all"
  || String.eqb (JS.toLowerCase (JS.orElse (Attendee.company a) ""))
                (JS.toLowerCase (companyFilter fl)).

Definition baseFiltered (fl : Filters) (attendees : list Attendee.t) : list Attendee.t :=
  List.filter (fun a => matchesEvent fl a && matchesCompany fl a) attendees.

Definition matchesSearch (fl : Filters) (a : Attendee.t) : bool :=
  let searchText := JS.toLowerCase (JS.trim (search fl)) in
  String.eqb searchText ""
  || JS.includes (JS.toLowerCase (Attendee.fullName a)) searchText
  || JS.includes (JS.toLowerCase (JS.orElse (Attendee.email a) "")) searchText
  || JS.includes (JS.toLowerCase (JS.orElse (Attendee.company a) "")) searchText.

Definition matchesStatus (fl : Filters) (a : Attendee.t) : bool :=
  let checked := Attendee.isCheckedIn a in
  String.eqb (statusFilter fl) "all"
  || (String.eqb (statusFilter fl) "checkedIn" && checked)
  || (String.eqb (statusFilter fl) "notCheckedIn" && negb checked).

Definition filteredAttendees (fl : Filters) (attendees : list Attendee.t)
  : list Attendee.t :=
  List.filter (fun a => matchesSearch fl a && matchesStatus fl a)
    (baseFiltered fl attendees).

Definition totalRegistrants (fl : Filters) (attendees : list Attendee.t) : Z :=
  Z.of_nat (length (baseFiltered fl attendees)).

Definition totalCheckedIn (fl : Filters) (attendees : list Attendee.t) : Z :=
  Z.of_nat (length (List.filter Attendee.isCheckedIn (baseFiltered fl attendees))).

(** [Math.max(totalRegistrants - totalCheckedIn, 0)] *)
Definition totalNotCheckedIn (fl : Filters) (attendees : list Attendee.t) : Z :=
  Z.max (totalRegistrants fl attendees - totalCheckedIn fl attendees) 0.

(** The members of [scannedIdSet]. *)
Definition scannedIds (scanLogs : list ScanLog.t) : list string :=
  CheckInPage.logKey <$> scanLogs.

Definition isScanned (scanLogs : list ScanLog.t) (a : Attendee.t) : bool :=
  existsb (String.eqb (Attendee.id a)) (scannedIds scanLogs).

Definition totalScannedViaQr (fl : Filters) (attendees : list Attendee.t)
    (scanLogs : list ScanLog.t) : Z :=
  Z.of_nat (length (List.filter (isScanned scanLogs) (baseFiltered fl attendees))).
End AdminPage.

(** The exhibitor portal: [toCsv], which quotes a cell only when it holds a
    comma, a double quote or a line feed *)
Module PortalPage.
Definition headers : list string :=
  ["id"; "attendeeId"; "attendeeName"; "attendeeEmail"; "exhibitor"; "notes";
   "timestamp"; "eventId"].

Definition needsQuotes (str : string) : bool :=
  JS.includes str "," || JS.includes str JS.dq || JS.includes str Scanlog.newline.

Definition escape (str : string) : string :=
  if needsQuotes str
  then JS.dq +:+ JS.replaceAll JS.dquote (JS.dq +:+ JS.dq) str +:+ JS.dq
  else str.

(** [String(row[h] ?? "")] for the eight headers. *)
Definition values (toISOString : Z -> string) (row : Lead.t) : list string :=
  [ from_option JS.ofNumber "" (Lead.id row);
    JS.nullish (Lead.attendeeId row) "";
    JS.nullish (Lead.attendeeName row) "";
    JS.nullish (Lead.attendeeEmail row) "";
    JS.nullish (Lead.exhibitor row) "";
    JS.nullish (Lead.notes row) "";
    from_option toISOString "" (Lead.timestamp row);
    JS.nullish (Lead.eventId row) "" ].

Definition line (toISOString : Z -> string) (row : Lead.t) : string :=
  JS.join "," (escape <$> values toISOString row).

Definition toCsv (toISOString : Z -> string) (rows : list Lead.t) : string :=
  JS.join Scanlog.newline (JS.join "," headers :: (line toISOString <$> rows)).
End PortalPage.

(** The registration page: [handleSubmit] *)
Module RegisterPage.
Record Form : Type := mkForm {
  firstName : string;
  lastName : string;
  email : string;
  company : string }.

Record Page : Type := mkPage {
  form : Form;
  error : string;
  result : option Register.Created }.

Definition body (f : Form) : Register.Body :=
  Register.mkBody (Some (firstName f)) (Some (lastName f)) (Some (email f))
    (Some (company f)).

(** The page after the submit, and the files.  The handler answers with a
    body exactly when its status is in the 200s. *)
Definition handleSubmit (nowId nowCreated : Z) (p : Page) (w : World) : Page * World :=
  let f := form p in
  if String.eqb (firstName f) "" || String.eqb (lastName f) ""
     || String.eqb (email f) ""
  then (mkPage f "First name, last name, and email are required." None, w)
  else
    let r := Register.POST nowId nowCreated (body f) w in
    match fst r with
    | Fail _ e =>
        (mkPage f (JS.orElse (Some e) "Error registering attendee.") None, snd r)
    | Json _ data =>
        if ok (fst r)
        then (mkPage (mkForm "" "" "" "") "" (Some data), snd r)
        else (mkPage f "Error registering attendee." None, snd r)
    end.
End RegisterPage.

(** ** Further notions used by the statements *)


(** The request the exhibitor portal sends with its stored token. *)
Definition portalRequest (token : string) : Request unit :=
  mkRequest (Some ("Bearer " +:+ token)) tt.


(** The entry a request appends to a readable scan log, if it is one that
    appends. *)
Definition loggedBy (c : Call) : list ScanLog.t :=
  match c with
  | CallScanlog nowId nowStamp body => [Scanlog.newLog nowId nowStamp body]
  | _ => []
  end.

(** The lead a request appends to a readable lead file. *)
Definition capturedBy (c : Call) : list Lead.t :=
  match c with
  | CallLead nowId nowStamp request => [Leads.newLead nowId nowStamp (json request)]
  | _ => []
  end.

(** Every attendee of [before] is still at its place in [after], with its id
    and its creation time. *)
Definition Survive (before after : list Attendee.t) : Prop :=
  forall i a, before !! i = Some a ->
    exists a', after !! i = Some a'
               /\ Attendee.id a' = Attendee.id a
               /\ Attendee.createdAt a' = Attendee.createdAt a.


(** The attendee edit is the one request that can change a stored email. *)
Definition isPatchCall (c : Call) : bool :=
  match c with
  | CallPatch _ _ => true
  | _ => false
  end.

(** The comparator of the two newest-first sorts, on the instant it reads. *)
Definition byInstant {A} (instant : A -> option Z) (a b : A) : Z :=
  match instant a, instant b with
  | Some ta, Some tb => tb - ta
  | _, _ => 0
  end.

(** [a] is not older than [b]. *)
Definition notOlder {A} (instant : A -> option Z) (a b : A) : Prop :=
  match instant a, instant b with
  | Some ta, Some tb => (tb <= ta)%Z
  | _, _ => False
  end.

(** The key registration compares emails by. *)
Definition emailKey (a : Attendee.t) : string :=
  Register.normalizeEmail (JS.orElse (Attendee.email a) "").


(** What may follow a cell in a CSV text: nothing, a comma or a line feed. *)
Definition afterCell (rest : string) : Prop :=
  match rest with
  | EmptyString => True
  | String c _ => c = ","%char \/ c = ascii_of_nat 10
  end.

(** The value with each double quote doubled. *)
Definition doubled (v : string) : string :=
  JS.replaceAll JS.dquote (JS.dq +:+ JS.dq) v.

(** What may follow the closing quote of a cell: no further quote. *)
Definition noQuote (rest : string) : Prop :=
  match rest with
  | EmptyString => True
  | String c _ => c <> JS.dquote
  end.

(** A row of at least two cells. *)
Definition wide (vs : list string) : Prop := (2 <= length vs)%nat.

(** What may follow a row: nothing or a line feed. *)
Definition afterRow (rest : string) : Prop :=
  match rest with
  | EmptyString => True
  | String c _ => c = ascii_of_nat 10
  end.

(** A cell encoding that can be read back whatever follows the cell. *)
Definition Readable (enc : string -> string) : Prop :=
  forall v1 v2 r1 r2, afterCell r1 -> afterCell r2 ->
    enc v1 +:+ r1 = enc v2 +:+ r2 -> v1 = v2 /\ r1 = r2.

(** The latest instant among the logs of attendee [id], if one has an instant. *)
Definition LatestOf (id : string) (logs : list ScanLog.t) (t : Z) : Prop :=
  (exists l, In l logs /\ CheckInPage.logKey l = id /\ ScanLog.timestamp l = Some t)
  /\ (forall l t', In l logs -> CheckInPage.logKey l = id ->
        ScanLog.timestamp l = Some t' -> (t' <= t)%Z).

(** ** Sample data *)

Definition ada : Register.Body :=
  Register.mkBody (Some "Ada") (Some "Lovelace") (Some " Ada@X.com ") None.

Definition emptyWorld : World := mkWorld Missing (Content []) Missing Missing.

Definition adaStored : Attendee.t :=
  Attendee.mk "1700000000000" (Some "Ada") (Some "Lovelace") None
    (Some "ada@x.com") (Some "") None (Some 1700000000001%Z) None None.

Definition idleUi : Scanner.Ui :=
  Scanner.mkUi Scanner.Idle "" "" "" None true "".

Definition adaCheckedIn : Attendee.t := Attendee.withCheckIn true (Some 5%Z) adaStored.

Definition searching (name : string) : Scanner.Ui :=
  Scanner.mkUi Scanner.Idle "" "" "" None true name.

Definition renameToGrace : gmap string (option string) :=
  <["firstName" := Some "Grace"]> (<["id" := Some "7"]> (<["checkedInAt" := Some "never"]> ∅)).

Definition obrien : string := "O" +:+ JS.dq +:+ "Brien".

Definition twoLogs : list ScanLog.t :=
  [ ScanLog.mk (Some 6%Z) (Some "1700000000000") (Some obrien) (Some "ob@x.com")
      (Some "scan") (Some 7%Z);
    ScanLog.mk (Some 9%Z) (Some "1700000000000") None (Some "ob@x.com")
      (Some "manual") None ].

Definition staleToken : TokenRecord.t := TokenRecord.mk "old@x.com" "t-old" 1000.
Definition liveToken : TokenRecord.t := TokenRecord.mk "new@x.com" "t-new" 5000.

Definition boothBody : Leads.Body :=
  Leads.mkBody (Some "evt_demo_001") (Some "1700000000000") (Some "Ada Lovelace")
    (Some "ada@x.com") (Some "Booth 9") None.

Definition boothLead : Lead.t :=
  Lead.mk (Some 2000%Z) (Some "evt_demo_001") (Some "1700000000000") (Some "Ada Lovelace")
    (Some "ada@x.com") (Some "Booth 9") (Some "") (Some 2001%Z).

Definition nameless : Register.Body :=
  Register.mkBody None (Some "Lovelace") (Some " ADA@x.com") None.

Definition adaAgain : Register.Body :=
  Register.mkBody (Some "Augusta") (Some "King") (Some " ADA@x.com") (Some "Analytical").

Definition grace : Register.Body :=
  Register.mkBody (Some "Grace") (Some "Hopper") (Some "grace@x.com") (Some "Navy").

Definition bob : Attendee.t :=
  Attendee.mk "1700000000500" (Some "Bob") None None (Some "bob@x.com") None None
    (Some 1700000000501%Z) None None.

(** ** Sample runs *)

Example trim_sample : JS.trim "  Ada L " = "Ada L".
Proof. reflexivity. Qed.

Example split_sample : JS.split JS.colon "hemisphere:17:x" = ["hemisphere"; "17"; "x"].
Proof. reflexivity. Qed.

Example split_empty : JS.split JS.colon "" = [""].
Proof. reflexivity. Qed.

Example number_sample : JS.ofNumber 1700000000000 = "1700000000000".
Proof. reflexivity. Qed.

Example includes_sample : JS.includes "ada lovelace" "a l" = true /\ JS.includes "" "" = true.
Proof. split; reflexivity. Qed.

Example register_ada :
  fst (Register.POST 1700000000000 1700000000001 ada emptyWorld)
  = Json 201 (Register.mkCreated
      (Attendee.mk "1700000000000" (Some "Ada") (Some "Lovelace") None
         (Some "ada@x.com") (Some "") None (Some 1700000000001%Z) None None)
      "hemisphere:1700000000000").
Proof. reflexivity. Qed.

Example scan_ada_twice :
  let w := snd (Register.POST 1700000000000 1700000000001 ada emptyWorld) in
  let st := Scanner.scanRepeatedly "hemisphere:1700000000000"
              [Scanner.mkClock 5 6 7; Scanner.mkClock 8 9 10] (idleUi, w) in
  (Attendee.checkedInAt <$> stored (attendeesFile (snd st)) = [Some 5%Z]
   /\ ScanLog.id <$> stored (scanlogsFile (snd st)) = [Some 6%Z; Some 9%Z])
  /\ Scanner.message (fst st) = "Already checked in: Ada Lovelace".
Proof. vm_compute. auto. Qed.

(** ** Facts about the string helpers *)

Section Strings.

Lemma trimEnd_keep c r : JS.isSpace c = false -> JS.trimEnd (String c r) = String c (JS.trimEnd r).
Proof. intros Hc. simpl. rewrite Hc. now destruct (JS.trimEnd r). Qed.

Lemma trimStart_keep c r : JS.isSpace c = false -> JS.trimStart (String c r) = String c r.
Proof. intros Hc. simpl. now rewrite Hc. Qed.

Lemma append_cons c r s : String c r +:+ s = String c (r +:+ s).
Proof. reflexivity. Qed.

Lemma toLowerCase_append a b :
  JS.toLowerCase (a +:+ b) = JS.toLowerCase a +:+ JS.toLowerCase b.
Proof. induction a as [|c r IH]; simpl; [easy|]. now rewrite IH. Qed.

Lemma prefix_append p s : String.prefix p (p +:+ s) = true.
Proof.
  induction p as [|c r IH]; simpl; [now destruct s|].
  destruct (ascii_dec c c); [exact IH|easy].
Qed.

Lemma trimStart_shorter s : (String.length (JS.trimStart s) <= String.length s)%nat.
Proof. induction s as [|c r IH]; simpl; [lia|]. destruct (JS.isSpace c); simpl; lia. Qed.

Lemma trimEnd_shorter s : (String.length (JS.trimEnd s) <= String.length s)%nat.
Proof.
  induction s as [|c r IH]; simpl; [lia|].
  destruct (JS.trimEnd r); [destruct (JS.isSpace c)|]; simpl in *; lia.
Qed.

Lemma trimStart_same_length s :
  String.length (JS.trimStart s) = String.length s -> JS.trimStart s = s.
Proof.
  destruct s as [|c r]; simpl; [easy|].
  destruct (JS.isSpace c); [|easy].
  pose proof (trimStart_shorter r). lia.
Qed.

Lemma trimEnd_same_length s :
  String.length (JS.trimEnd s) = String.length s -> JS.trimEnd s = s.
Proof.
  induction s as [|c r IH]; simpl; [easy|].
  pose proof (trimEnd_shorter r) as Hle.
  destruct (JS.trimEnd r) eqn:E.
  - destruct (JS.isSpace c); simpl in *; intros; [lia|].
    f_equal. apply IH. lia.
  - simpl in *. intros H. f_equal. apply IH. lia.
Qed.

(** A trimmed string loses nothing at either end. *)
Lemma trim_fixed s : JS.trim s = s -> JS.trimStart s = s /\ JS.trimEnd s = s.
Proof.
  unfold JS.trim. intros H.
  pose proof (trimStart_shorter s). pose proof (trimEnd_shorter (JS.trimStart s)).
  assert (JS.trimStart s = s) as Hs.
  { apply trimStart_same_length. rewrite <- H at 2. rewrite <- H in H0 at 2. lia. }
  split; [easy|]. now rewrite Hs in H.
Qed.

Lemma prefix_cons a p c r :
  String.prefix (String a p) (String c r)
  = if ascii_dec a c then String.prefix p r else false.
Proof. reflexivity. Qed.

Lemma includes_colon c r :
  JS.includes (String c r) ":" = Ascii.eqb c JS.colon || JS.includes r ":".
Proof.
  change (JS.includes (String c r) ":")
    with (String.prefix ":" (String c r) || JS.includes r ":").
  f_equal. rewrite prefix_cons.
  destruct (ascii_dec ":" c) as [<-|Hne].
  - now destruct r.
  - symmetry. apply Ascii.eqb_neq. intros ->. now apply Hne.
Qed.

Lemma includes_colon_cons c r :
  JS.includes (String c r) ":" = false ->
  Ascii.eqb c JS.colon = false /\ JS.includes r ":" = false.
Proof. rewrite includes_colon. apply orb_false_elim. Qed.

Lemma split_not_nil sep s : JS.split sep s <> [].
Proof.
  destruct s as [|c r]; simpl; [easy|].
  destruct (Ascii.eqb c sep); [easy|]. now destruct (JS.split sep r).
Qed.

(** Without a separator there is one part, the string itself. *)
Lemma split_plain s : JS.includes s ":" = false -> JS.split JS.colon s = [s].
Proof.
  induction s as [|c r IH]; [easy|].
  intros [Hc Hr]%includes_colon_cons. simpl. rewrite Hc, (IH Hr). reflexivity.
Qed.

Lemma pop_cons_part p parts : parts <> [] -> JS.pop (p :: parts) = JS.pop parts.
Proof. now destruct parts. Qed.

Lemma split_two_parts sep p s : (2 <= length (JS.split sep (p +:+ String sep s)))%nat.
Proof.
  induction p as [|c r IH]; simpl.
  - rewrite Ascii.eqb_refl. simpl.
    pose proof (split_not_nil sep s). destruct (JS.split sep s); [easy|simpl; lia].
  - destruct (Ascii.eqb c sep); [simpl; lia|].
    destruct (JS.split sep (r +:+ String sep s)); simpl in *; lia.
Qed.

(** The last part of a string starts after its last separator. *)
Lemma pop_split_after sep p s :
  JS.pop (JS.split sep (p +:+ String sep s)) = JS.pop (JS.split sep s).
Proof.
  induction p as [|c r IH]; simpl.
  - rewrite Ascii.eqb_refl. apply pop_cons_part, split_not_nil.
  - destruct (Ascii.eqb c sep).
    + rewrite pop_cons_part; [exact IH|apply split_not_nil].
    + pose proof (split_two_parts sep r s) as Hlen. rewrite <- IH.
      destruct (JS.split sep (r +:+ String sep s)) as [|h [|h' t]]; simpl in Hlen; [lia..|].
      reflexivity.
Qed.

Lemma idOf_plain id : JS.includes id ":" = false -> Attendees.idOf id = id.
Proof. intros H. unfold Attendees.idOf. now rewrite (split_plain _ H). Qed.

(** The scanner reads the id back from the badge payload. *)
Lemma scanId_qrValue id : WellFormedId id -> Scanner.scanId (Scanner.qrValue id) = id.
Proof.
  intros [Hne Htrim Hcolon]. destruct (trim_fixed _ Htrim) as [_ Hend].
  assert (JS.trim (Scanner.qrValue id) = Scanner.qrValue id) as Ht.
  { unfold JS.trim, Scanner.qrValue. rewrite !append_cons.
    rewrite trimStart_keep by reflexivity.
    rewrite !trimEnd_keep by reflexivity.
    change (EmptyString +:+ id) with id. now rewrite Hend. }
  unfold Scanner.scanId. rewrite Ht.
  assert (JS.startsWith (JS.toLowerCase (Scanner.qrValue id)) "hemisphere:" = true) as ->.
  { unfold Scanner.qrValue, JS.startsWith. rewrite toLowerCase_append.
    change (JS.toLowerCase "hemisphere:") with "hemisphere:". apply prefix_append. }
  change (Scanner.qrValue id) with ("hemisphere" +:+ String JS.colon id).
  rewrite pop_split_after, (split_plain _ Hcolon). reflexivity.
Qed.








End Strings.

(** ** Facts about searching, updating and sorting a collection *)

Section Collections.
Context {A : Type}.
Implicit Types (p : A -> bool) (l : list A).

Lemma findIndex_lookup p l i :
  findIndex p l = Some i -> exists x, l !! i = Some x /\ p x = true.
Proof.
  revert i. induction l as [|y r IH]; intros i; simpl; [easy|].
  destruct (p y) eqn:Hy.
  - intros [= <-]. eauto.
  - destruct (findIndex p r) as [j|]; simpl; [|easy].
    intros [= <-]. apply (IH j eq_refl).
Qed.

(** [find] returns the element at the index [findIndex] returns. *)
Lemma findIndex_find p l i x :
  findIndex p l = Some i -> l !! i = Some x -> List.find p l = Some x.
Proof.
  revert i. induction l as [|y r IH]; intros i; simpl; [easy|].
  destruct (p y) eqn:Hy.
  - intros [= <-]. simpl. congruence.
  - destruct (findIndex p r) as [j|] eqn:Hj; simpl; [|easy].
    intros [= <-]. simpl. now apply IH.
Qed.

(** Replacing the found element by another match leaves the index alone. *)
Lemma findIndex_insert p l i y :
  findIndex p l = Some i -> p y = true -> findIndex p (<[i := y]> l) = Some i.
Proof.
  revert i. induction l as [|z r IH]; intros i; simpl; [easy|].
  destruct (p z) eqn:Hz.
  - intros [= <-] Hy. simpl. now rewrite Hy.
  - destruct (findIndex p r) as [j|] eqn:Hj; simpl; [|easy].
    intros [= <-] Hy. simpl. rewrite Hz, (IH j eq_refl Hy). reflexivity.
Qed.

Lemma findIndex_bound p l i : findIndex p l = Some i -> (i < length l)%nat.
Proof.
  intros (x & Hx & _)%findIndex_lookup. now apply lookup_lt_Some in Hx.
Qed.

Lemma find_all_false p l : (forall x, In x l -> p x = false) -> List.find p l = None.
Proof.
  induction l as [|y r IH]; simpl; [easy|]. intros H.
  rewrite (H y) by now left. apply IH. intros x Hx. apply H. now right.
Qed.

Lemma insertBy_perm (cmp : A -> A -> Z) x l : Permutation (Attendees.insertBy cmp x l) (x :: l).
Proof.
  induction l as [|y r IH]; simpl; [easy|].
  destruct (cmp x y <=? 0)%Z; [easy|].
  rewrite IH. apply perm_swap.
Qed.

(** Sorting only reorders. *)
Lemma sortBy_perm (cmp : A -> A -> Z) l : Permutation (Attendees.sortBy cmp l) l.
Proof.
  induction l as [|y r IH]; simpl; [easy|].
  rewrite insertBy_perm. now constructor.
Qed.

Lemma find_sorted_none (cmp : A -> A -> Z) p l :
  List.find p l = None -> List.find p (Attendees.sortBy cmp l) = None.
Proof.
  intros H. apply find_all_false. intros x Hx.
  apply (find_none _ _ H). revert Hx. apply Permutation_in, sortBy_perm.
Qed.

End Collections.

(** ** The check-in workflow *)

Lemma scanRepeatedly_cons raw c cs st :
  Scanner.scanRepeatedly raw (c :: cs) st
  = Scanner.scanRepeatedly raw cs (Scanner.handleScanResult raw c st).
Proof. reflexivity. Qed.

Section CheckIn.
Variables (attendees : list Attendee.t) (leads : file (list Lead.t))
          (tokens : file (list TokenRecord.t)).
Variables (i : nat) (a : Attendee.t).

(** [a] is the attendee the store resolves its id to. *)
Hypothesis at_i : attendees !! i = Some a.
Hypothesis first_i : findIndex (Attendee.hasId (Attendee.id a)) attendees = Some i.

Let world (logs : list ScanLog.t) : World :=
  mkWorld (Content attendees) (Content logs) leads tokens.

Lemma lookup_resolves w :
  attendeesFile w = Content attendees ->
  JS.includes (Attendee.id a) ":" = false ->
  Scanner.lookup (Attendee.id a) w = Some (Attendees.named a).
Proof.
  intros Hw Hcolon. unfold Scanner.lookup, Attendees.GET. rewrite Hw. simpl.
  rewrite (idOf_plain _ Hcolon), (findIndex_find _ _ _ _ first_i at_i).
  reflexivity.
Qed.

Lemma checkin_saves now body w :
  attendeesFile w = Content attendees ->
  Checkin.id body = Attendee.id a ->
  Checkin.POST now body w
  = (let a' := Checkin.apply now (default true (Checkin.checkedIn body)) a in
     (Json 200 (Checkin.mkSaved true a'),
      setAttendees (Content (<[i := a']> attendees)) w)).
Proof.
  intros Hw Hid. unfold Checkin.POST. rewrite Hw. simpl.
  now rewrite Hid, first_i, at_i.
Qed.

(** The scanner never posts a check-in for an attendee it finds checked in. *)
Lemma scan_guard c ui w :
  attendeesFile w = Content attendees ->
  WellFormedId (Attendee.id a) ->
  Attendee.isCheckedIn a = true ->
  attendeesFile (snd (Scanner.handleScanResult (Scanner.qrValue (Attendee.id a)) c (ui, w)))
  = attendeesFile w.
Proof.
  intros Hw Hwf Hin. unfold Scanner.handleScanResult.
  rewrite (scanId_qrValue _ Hwf).
  destruct (String.eqb_spec (Attendee.id a) "") as [E|_]; [now destruct Hwf|].
  rewrite (lookup_resolves w Hw (wf_no_colon _ Hwf)).
  change (Attendee.isCheckedIn (Attendees.named a)) with (Attendee.isCheckedIn a).
  rewrite Hin. unfold Scanlog.POST.
  destruct (scanlogsFile w); reflexivity.
Qed.

(** One scan of a well-formed badge: the log grows by one entry, and the
    attendee file changes only if the attendee was not checked in. *)
Lemma scan_once c ui logs :
  WellFormedId (Attendee.id a) ->
  snd (Scanner.handleScanResult (Scanner.qrValue (Attendee.id a)) c (ui, world logs))
  = mkWorld
      (Content (if Attendee.isCheckedIn a then attendees
                else <[i := Attendee.withCheckIn true (Some (Scanner.atCheckin c)) a]> attendees))
      (Content (logs ++ [scanEntry a c])) leads tokens.
Proof.
  intros Hwf. unfold Scanner.handleScanResult.
  rewrite (scanId_qrValue _ Hwf).
  destruct (String.eqb_spec (Attendee.id a) "") as [E|_]; [now destruct Hwf|].
  rewrite (lookup_resolves (world logs) eq_refl (wf_no_colon _ Hwf)).
  change (Attendee.isCheckedIn (Attendees.named a)) with (Attendee.isCheckedIn a).
  destruct (Attendee.isCheckedIn a); [reflexivity|].
  rewrite (checkin_saves _ _ (world logs)) by reflexivity. reflexivity.
Qed.

(** Scanning an attendee who is checked in only ever extends the log. *)
Lemma scan_many_checked_in cs :
  WellFormedId (Attendee.id a) ->
  Attendee.isCheckedIn a = true ->
  forall ui logs,
  snd (Scanner.scanRepeatedly (Scanner.qrValue (Attendee.id a)) cs (ui, world logs))
  = world (logs ++ (scanEntry a <$> cs)).
Proof.
  intros Hwf Hin. induction cs as [|c cs' IH]; intros ui logs.
  - simpl. now rewrite app_nil_r.
  - rewrite scanRepeatedly_cons.
    pose proof (scan_once c ui logs Hwf) as Hstep. rewrite Hin in Hstep.
    destruct (Scanner.handleScanResult _ c (ui, world logs)) as [ui' w'].
    simpl in Hstep. subst w'. unfold world in *.
    rewrite IH, fmap_cons, <- app_assoc. reflexivity.
Qed.





End CheckIn.

Lemma scanEntry_withCheckIn b t a : scanEntry (Attendee.withCheckIn b t a) = scanEntry a.
Proof. reflexivity. Qed.





(** C7.  A direct [POST /api/checkin] that asks for a check-in (with
    [checkedIn] true, or left out) of an attendee who is checked in already
    rewrites that attendee with [checkedInAt] set to the time of this request,
    whatever it held before, and the same request sent again later sets it to
    that later time.  What keeps the first timestamp under repeated
    scans is the scanner: for an attendee it finds checked in it leaves the
    attendee file as it is. *)
Theorem checkin_endpoint_overwrites_timestamp
    (attendees : list Attendee.t) (w : World) (i : nat) (a : Attendee.t)
    (now : Z) (body : Checkin.Body) :
  attendeesFile w = Content attendees ->
  attendees !! i = Some a ->
  findIndex (Attendee.hasId (Attendee.id a)) attendees = Some i ->
  Attendee.isCheckedIn a = true ->
  Checkin.id body = Attendee.id a ->
  default true (Checkin.checkedIn body) = true ->
  let a' := Attendee.withCheckIn true (Some now) a in
  Checkin.POST now body w
  = (Json 200 (Checkin.mkSaved true a'), setAttendees (Content (<[i := a']> attendees)) w)
  /\ stored (attendeesFile (snd (Checkin.POST now body w))) !! i = Some a'
  /\ Attendee.checkedInAt a' = Some now
  /\ (forall later,
        stored (attendeesFile (snd (Checkin.POST later body (snd (Checkin.POST now body w)))))
          !! i
        = Some (Attendee.withCheckIn true (Some later) a))
  /\ (WellFormedId (Attendee.id a) ->
      forall c ui,
        attendeesFile (snd (Scanner.handleScanResult (Scanner.qrValue (Attendee.id a)) c (ui, w)))
        = attendeesFile w).
Proof.
  intros Hw Hat Hfirst Hin Hid Htrue a'.
  assert (i < length attendees)%nat as Hi by now apply lookup_lt_Some in Hat.
  pose proof (checkin_saves attendees i a Hat Hfirst now body w Hw Hid) as Hpost.
  rewrite Htrue in Hpost. cbn [Checkin.apply] in Hpost. fold a' in Hpost.
  rewrite Hpost. cbn [snd setAttendees attendeesFile stored].
  split; [reflexivity|]. split; [now apply list_lookup_insert_eq|].
  split; [reflexivity|]. split.
  - intros later.
    rewrite (checkin_saves (<[i := a']> attendees) i a') with (w := setAttendees _ w);
      [|now apply list_lookup_insert_eq
       |apply findIndex_insert; [exact Hfirst|apply String.eqb_refl]
       |reflexivity|exact Hid].
    rewrite Htrue. cbn [snd setAttendees attendeesFile stored Checkin.apply].
    apply list_lookup_insert_eq. now rewrite length_insert.
  - intros Hwf c ui. now apply (scan_guard attendees i a Hat Hfirst).
Qed.

Lemma checkin_endpoint_overwrites_timestamp_witness :
  let attendees := [adaCheckedIn] in
  let w := mkWorld (Content attendees) (Content []) Missing Missing in
  let body := Checkin.mkBody "1700000000000" None in
  (attendeesFile w = Content attendees
   /\ attendees !! 0%nat = Some adaCheckedIn
   /\ findIndex (Attendee.hasId (Attendee.id adaCheckedIn)) attendees = Some 0%nat
   /\ Attendee.isCheckedIn adaCheckedIn = true
   /\ Checkin.id body = Attendee.id adaCheckedIn
   /\ default true (Checkin.checkedIn body) = true)
  /\ (let a' := Attendee.withCheckIn true (Some 99%Z) adaCheckedIn in
      Checkin.POST 99 body w
      = (Json 200 (Checkin.mkSaved true a'), setAttendees (Content (<[0%nat := a']> attendees)) w)
      /\ stored (attendeesFile (snd (Checkin.POST 99 body w))) !! 0%nat = Some a'
      /\ Attendee.checkedInAt a' = Some 99%Z
      /\ (forall later,
            stored (attendeesFile (snd (Checkin.POST later body (snd (Checkin.POST 99 body w)))))
              !! 0%nat
            = Some (Attendee.withCheckIn true (Some later) adaCheckedIn))
      /\ (WellFormedId (Attendee.id adaCheckedIn) ->
          forall c ui,
            attendeesFile (snd (Scanner.handleScanResult
                                  (Scanner.qrValue (Attendee.id adaCheckedIn)) c (ui, w)))
            = attendeesFile w)).
Proof.
  intros attendees w body.
  split; [repeat split; reflexivity|].
  exact (checkin_endpoint_overwrites_timestamp attendees w 0 adaCheckedIn 99 body
           eq_refl eq_refl eq_refl eq_refl eq_refl eq_refl).
Defined.

Lemma manual_search_none tx lower w :
  (forall a, In a (stored (attendeesFile w)) -> Scanner.nameMatches tx lower a = false) ->
  match Scanner.jsonIfOk (Attendees.GETall w) with
  | Some list => List.find (Scanner.nameMatches tx lower) list = None
  | None => attendeesFile w = Unreadable \/ attendeesFile w = Corrupt
  end.
Proof.
  intros Hnone. unfold Attendees.GETall.
  destruct (attendeesFile w) as [| | |l]; simpl in *; auto.
  now apply find_sorted_none, find_all_false.
Qed.

(** C9, as stated, fails for the empty term: a term that is blank after
    trimming matches nobody in a store without attendees, and the page does
    not search and does not fail; it keeps its state and asks for a name. *)
Lemma manual_checkin_blank_term_is_no_error :
  Scanner.handleManualCheckin Scanner.asciiText (Scanner.mkClock 5 6 7)
    (searching "   ", mkWorld (Content []) (Content []) Missing Missing)
  = (Scanner.mkUi Scanner.Idle "Please type a name before checking in manually."
       "" "" None true "   ",
     mkWorld (Content []) (Content []) Missing Missing)
  /\ (forall a, In a (@nil Attendee.t) ->
        Scanner.nameMatches Scanner.asciiText
          (JS.toLowerCase (JS.trim "   ")) a = false).
Proof. split; [reflexivity|]. intros a []. Qed.

(** C9, amended.  A manual check-in whose trimmed term occurs, lower-cased,
    in the lower-cased [first last] name of no attendee of the store changes
    no file: no attendee is mutated and no scan-log entry is appended.  For a
    term that is not blank the page ends in its error state with no attendee
    shown, and its message is that no attendee was found matching the term;
    only when the attendee file cannot be read is the message that the
    attendees could not be loaded.  A blank term is not searched: the page
    keeps its state and asks for a name.  Trimming and lower-casing are those
    of the runtime, whatever they do outside ASCII. *)
Theorem manual_checkin_no_match
    (tx : Scanner.Text) (ui : Scanner.Ui) (w : World) (c : Scanner.Clock) :
  let term := Scanner.trimOf tx (Scanner.manualName ui) in
  (forall a, In a (stored (attendeesFile w)) ->
             JS.includes (Scanner.lowerOf tx (Scanner.fullNameOf tx a))
               (Scanner.lowerOf tx term) = false) ->
  let st := Scanner.handleManualCheckin tx c (ui, w) in
  snd st = w
  /\ fst st
     = if String.eqb term ""
       then Scanner.mkUi (Scanner.scanState ui)
              "Please type a name before checking in manually."
              (Scanner.lastValue ui) (Scanner.lastMethod ui) (Scanner.attendee ui)
              (Scanner.isScanningEnabled ui) (Scanner.manualName ui)
       else Scanner.mkUi Scanner.Errored
              (match attendeesFile w with
               | Unreadable | Corrupt => "Could not load attendees. Try again."
               | Missing | Content _ =>
                   "No attendee found matching " +:+ JS.dq +:+ term +:+ JS.dq +:+ "."
               end)
              term "manual" None false (Scanner.manualName ui).
Proof.
  intros term Hnone st. subst st. unfold Scanner.handleManualCheckin. fold term.
  pose proof (manual_search_none tx (Scanner.lowerOf tx term) w Hnone) as Hsearch.
  destruct (String.eqb term ""); [now split|].
  destruct (Scanner.jsonIfOk (Attendees.GETall w)) as [list|] eqn:Hlist.
  - rewrite Hsearch. split; [reflexivity|].
    unfold Attendees.GETall in Hlist.
    destruct (attendeesFile w); simpl in Hlist; try discriminate; reflexivity.
  - split; [reflexivity|]. now destruct Hsearch as [-> | ->].
Qed.

Lemma manual_checkin_no_match_witness :
  let ui := searching " Zed " in
  let w := mkWorld (Content [adaStored]) (Content []) Missing Missing in
  let c := Scanner.mkClock 5 6 7 in
  let term := Scanner.trimOf Scanner.asciiText (Scanner.manualName ui) in
  (forall a, In a (stored (attendeesFile w)) ->
     JS.includes
       (Scanner.lowerOf Scanner.asciiText (Scanner.fullNameOf Scanner.asciiText a))
       (Scanner.lowerOf Scanner.asciiText term) = false)
  /\ (let st := Scanner.handleManualCheckin Scanner.asciiText c (ui, w) in
      snd st = w
      /\ fst st
         = if String.eqb term ""
           then Scanner.mkUi (Scanner.scanState ui)
                  "Please type a name before checking in manually."
                  (Scanner.lastValue ui) (Scanner.lastMethod ui) (Scanner.attendee ui)
                  (Scanner.isScanningEnabled ui) (Scanner.manualName ui)
           else Scanner.mkUi Scanner.Errored
                  (match attendeesFile w with
                   | Unreadable | Corrupt => "Could not load attendees. Try again."
                   | Missing | Content _ =>
                       "No attendee found matching " +:+ JS.dq +:+ term +:+ JS.dq +:+ "."
                   end)
                  term "manual" None false (Scanner.manualName ui))
  /\ Scanner.scanState
       (fst (Scanner.handleManualCheckin Scanner.asciiText c (ui, w))) = Scanner.Errored.
Proof.
  intros ui w c term.
  assert (forall a, In a (stored (attendeesFile w)) ->
            JS.includes
              (Scanner.lowerOf Scanner.asciiText (Scanner.fullNameOf Scanner.asciiText a))
              (Scanner.lowerOf Scanner.asciiText term) = false)
    as Hnone.
  { intros a [<-|[]]. reflexivity. }
  split; [exact Hnone|]. split; [|reflexivity].
  exact (manual_checkin_no_match Scanner.asciiText ui w c Hnone).
Defined.

(** ** Editing an attendee *)

(** What [update] leaves of the current record, and what it takes from the
    payload. *)
Lemma update_fields payload a :
  let a' := Attendees.update payload a in
  (Attendee.id a' = Attendee.id a
   /\ Attendee.name a' = Attendee.name a
   /\ Attendee.createdAt a' = Attendee.createdAt a
   /\ Attendee.checkedIn a' = Attendee.checkedIn a
   /\ Attendee.checkedInAt a' = Attendee.checkedInAt a)
  /\ Attendee.firstName a' = default (Attendee.firstName a) (payload !! "firstName")
  /\ Attendee.lastName a' = default (Attendee.lastName a) (payload !! "lastName")
  /\ Attendee.email a' = default (Attendee.email a) (payload !! "email")
  /\ Attendee.company a' = default (Attendee.company a) (payload !! "company")
  /\ Attendee.eventId a' = default (Attendee.eventId a) (payload !! "eventId").
Proof.
  unfold Attendees.update, Attendees.fields. cbn [foldl].
  destruct (payload !! "firstName"), (payload !! "lastName"), (payload !! "email"),
           (payload !! "company"), (payload !! "eventId");
    repeat split; reflexivity.
Qed.



Example patch_sample :
  Attendee.firstName
    <$> stored (attendeesFile (snd (Attendees.PATCH "1700000000000" renameToGrace
          (mkWorld (Content [adaCheckedIn]) Missing Missing Missing))))
  = [Some "Grace"].
Proof. vm_compute. reflexivity. Qed.

(** ** The CSV export of the scan log *)

Lemma replaceAll_doubles v :
  QuotesDoubled v (JS.replaceAll JS.dquote (JS.dq +:+ JS.dq) v).
Proof.
  induction v as [|c r IH]; simpl; [constructor|].
  destruct (Ascii.eqb_spec c JS.dquote) as [->|Hc].
  - now constructor.
  - now constructor.
Qed.

(** Doubling is injective: the value can be read back from the cell. *)
Lemma QuotesDoubled_inj v1 v2 e : QuotesDoubled v1 e -> QuotesDoubled v2 e -> v1 = v2.
Proof.
  intros H1. revert v2. induction H1 as [|v e H IH|c v e Hc H IH]; intros v2 H2.
  - now inversion H2.
  - inversion H2; subst; [f_equal; now apply IH | congruence].
  - inversion H2; subst; [congruence | f_equal; now apply IH].
Qed.

Lemma cell_wrapped v :
  exists e, Scanlog.cell v = JS.dq +:+ e +:+ JS.dq /\ QuotesDoubled v e.
Proof. eexists. split; [reflexivity | apply replaceAll_doubles]. Qed.

Lemma append_nothing (s : string) : s +:+ "" = s.
Proof. induction s as [|c r IH]; [reflexivity|]. rewrite append_cons. now f_equal. Qed.

(** Joining by line feeds puts every part but the first behind a line feed. *)
Lemma join_lines (first : string) (rest : list string) :
  JS.join Scanlog.newline (first :: rest)
  = first +:+ foldr (fun row after => String (ascii_of_nat 10) (row +:+ after))
                EmptyString rest.
Proof.
  revert first. induction rest as [|row rest IH]; intros first.
  - simpl. now rewrite append_nothing.
  - change (JS.join Scanlog.newline (first :: row :: rest))
      with (first +:+ Scanlog.newline +:+ JS.join Scanlog.newline (row :: rest)).
    rewrite IH. reflexivity.
Qed.

(** C6.  The CSV export of a scan log of [n] entries is the header line
    [id,attendeeId,attendeeName,attendeeEmail,timestamp] followed by exactly
    [n] rows, each behind a line feed; the row of an entry is, in this order,
    its id, attendee id, attendee name, attendee email and timestamp (the
    empty text for one that is missing), separated by commas, each wrapped
    in double quotes with every double quote inside it doubled. *)
Theorem export_csv_shape
    (toISOString : Z -> string) (logs : list ScanLog.t) (w0 : World) :
  let lineFeed := ascii_of_nat 10 in
  let quote := ascii_of_nat 34 in
  let inQuotes e := String quote (e +:+ String quote EmptyString) in
  exists rows : list string,
    Scanlog.export toISOString (setScanlogs (Content logs) w0)
    = Json 200 ("id,attendeeId,attendeeName,attendeeEmail,timestamp"
                +:+ foldr (fun row after => String lineFeed (row +:+ after))
                      EmptyString rows)
    /\ length rows = length logs
    /\ forall k log, logs !! k = Some log ->
         exists e1 e2 e3 e4 e5 : string,
           rows !! k
           = Some (inQuotes e1 +:+ "," +:+ inQuotes e2 +:+ "," +:+ inQuotes e3
                   +:+ "," +:+ inQuotes e4 +:+ "," +:+ inQuotes e5)
           /\ QuotesDoubled (from_option JS.ofNumber "" (ScanLog.id log)) e1
           /\ QuotesDoubled (default "" (ScanLog.attendeeId log)) e2
           /\ QuotesDoubled (default "" (ScanLog.attendeeName log)) e3
           /\ QuotesDoubled (default "" (ScanLog.attendeeEmail log)) e4
           /\ QuotesDoubled (from_option toISOString "" (ScanLog.timestamp log)) e5.
Proof.
  intros lineFeed quote inQuotes.
  exists (Scanlog.row toISOString <$> logs). split; [|split].
  - unfold Scanlog.export. f_equal.
    change (Scanlog.lines toISOString
              (Scanlog.readLogs (scanlogsFile (setScanlogs (Content logs) w0))))
      with ("id,attendeeId,attendeeName,attendeeEmail,timestamp"
            :: (Scanlog.row toISOString <$> logs)).
    apply join_lines.
  - apply length_fmap.
  - intros k log Hk. rewrite list_lookup_fmap, Hk.
    exists (doubled (from_option JS.ofNumber "" (ScanLog.id log))),
           (doubled (default "" (ScanLog.attendeeId log))),
           (doubled (default "" (ScanLog.attendeeName log))),
           (doubled (default "" (ScanLog.attendeeEmail log))),
           (doubled (from_option toISOString "" (ScanLog.timestamp log))).
    split; [reflexivity|]. repeat split; apply replaceAll_doubles.
Qed.

Example cell_obrien :
  Scanlog.cell obrien = JS.dq +:+ "O" +:+ JS.dq +:+ JS.dq +:+ "Brien" +:+ JS.dq.
Proof. reflexivity. Qed.

Example export_two_logs :
  Scanlog.lines JS.ofNumber twoLogs
  = [ "id,attendeeId,attendeeName,attendeeEmail,timestamp";
      JS.join "," (Scanlog.cell <$> ["6"; "1700000000000"; obrien; "ob@x.com"; "7"]);
      JS.join "," (Scanlog.cell <$> ["9"; "1700000000000"; ""; "ob@x.com"; ""]) ].
Proof. reflexivity. Qed.

(** ** Exhibitor tokens *)


(** A login-link request with a non-blank email on a token file that is
    readable or not there yet: what is answered and what is written. *)
Lemma request_link_issued now uuid email w tokens :
  RequestLink.normalizeEmail email <> EmptyString ->
  RequestLink.readTokens (tokensFile w) = inr tokens ->
  RequestLink.POST now uuid email w
  = (Json 200 (RequestLink.mkLink true ("/exhibitors?token=" +:+ uuid) (now + 3600000)
                 (RequestLink.normalizeEmail email)),
     setTokens (Content (List.filter (fun t => (now <? TokenRecord.expiresAt t)%Z) tokens
                         ++ [TokenRecord.mk (RequestLink.normalizeEmail email) uuid
                               (now + 3600000)])) w).
Proof.
  intros Hemail Hread. unfold RequestLink.POST.
  destruct (String.eqb_spec (RequestLink.normalizeEmail email) "") as [E|_]; [easy|].
  rewrite Hread. unfold RequestLink.readTokens in Hread.
  destruct (tokensFile w); simpl in Hread; try discriminate; reflexivity.
Qed.




Example request_link_sample :
  stored (tokensFile (snd (RequestLink.POST 1000 "u-1" (Some " Booth@X.com ")
            (mkWorld Missing Missing Missing (Content [staleToken; liveToken])))))
  = [liveToken; TokenRecord.mk "booth@x.com" "u-1" 3601000].
Proof. reflexivity. Qed.

(** ** Leads and the token gate *)

Lemma find_some_in {A} (p : A -> bool) l a :
  In a l -> p a = true -> exists x, List.find p l = Some x.
Proof.
  induction l as [|y r IH]; simpl; [easy|].
  intros [->|Hin] Hp.
  - rewrite Hp. eauto.
  - destruct (p y); eauto.
Qed.

(** Only the lead capture rewrites the lead file. *)
Lemma leads_frame call w :
  (forall nowId nowStamp request, call <> CallLead nowId nowStamp request) ->
  leadsFile (perform call w) = leadsFile w.
Proof.
  destruct call; simpl; intros Hcall.
  - unfold Register.POST, Register.readAttendees. crush_handler.
  - unfold Checkin.POST. crush_handler.
  - unfold Attendees.PATCH. crush_handler.
  - unfold Scanlog.POST. crush_handler.
  - now destruct (Hcall nowId nowStamp request).
  - unfold ExhibitorLeads.GET. crush_handler.
  - unfold RequestLink.POST, RequestLink.readTokens. crush_handler.
Qed.

(** C2, as stated, fails: a lead capture that carries an expired token
    ([t-old] expired at 1000, the request is served at 2000), and one that
    carries a token the store has never seen, are both answered 201 and both
    append their lead. *)
Lemma lead_capture_with_invalid_token_is_stored :
  let w := mkWorld Missing Missing (Content []) (Content [staleToken]) in
  (ExhibitorLeads.isTokenValid 2000 (ExhibitorLeads.bearer "Bearer t-old") [staleToken] = None
   /\ Leads.POST 2000 2001 (mkRequest (Some "Bearer t-old") boothBody) w
      = (Json 201 boothLead, setLeads (Content [boothLead]) w))
  /\ (ExhibitorLeads.isTokenValid 2000 (ExhibitorLeads.bearer "Bearer nope") [staleToken] = None
      /\ Leads.POST 2000 2001 (mkRequest (Some "Bearer nope") boothBody) w
         = (Json 201 boothLead, setLeads (Content [boothLead]) w)).
Proof. repeat split; reflexivity. Qed.

(** C2, amended.  The token gate stands in front of the exhibitor portal's
    read of the leads: a [GET /api/exhibitors/leads] whose bearer token has no
    record in the token file (readable, or not there yet) that expires
    strictly after the time of the request is answered 401 and changes no
    file.  The lead capture [POST /api/leads] reads no token: its answer and
    its effect are those of the same request without an Authorization header;
    and no request other than a lead capture changes the lead file. *)
Theorem exhibitor_leads_rejects_invalid_token
    (now : Z) (request : Request unit) (w : World) (tokens : list TokenRecord.t) :
  ExhibitorLeads.readTokens (tokensFile w) = inr tokens ->
  (forall t, In t tokens ->
     TokenRecord.token t = ExhibitorLeads.bearer (JS.orElse (authorization request) "") ->
     (TokenRecord.expiresAt t <= now)%Z) ->
  (exists error, ExhibitorLeads.GET now request w = (Fail 401 error, w))
  /\ (forall nowId nowStamp (capture : Request Leads.Body) w',
        Leads.POST nowId nowStamp capture w'
        = Leads.POST nowId nowStamp (mkRequest None (json capture)) w')
  /\ (forall call w',
        (forall nowId nowStamp capture, call <> CallLead nowId nowStamp capture) ->
        leadsFile (perform call w') = leadsFile w').
Proof.
  intros Hread Hinvalid. split; [|split].
  - unfold ExhibitorLeads.GET.
    destruct (String.eqb_spec (ExhibitorLeads.bearer (JS.orElse (authorization request) "")) "")
      as [_|_]; [eauto|].
    rewrite Hread. unfold ExhibitorLeads.isTokenValid.
    rewrite find_all_false; [eauto|].
    intros t Ht. apply andb_false_iff.
    destruct (String.eqb_spec (TokenRecord.token t)
                (ExhibitorLeads.bearer (JS.orElse (authorization request) ""))) as [E|_];
      [right|now left].
    apply Z.ltb_ge. now apply Hinvalid.
  - reflexivity.
  - intros call w'. apply leads_frame.
Qed.

Lemma exhibitor_leads_rejects_invalid_token_witness :
  let w := mkWorld Missing Missing (Content [boothLead]) (Content [staleToken; liveToken]) in
  let request := mkRequest (Some "Bearer t-old") tt in
  (ExhibitorLeads.readTokens (tokensFile w) = inr [staleToken; liveToken]
   /\ (forall t, In t [staleToken; liveToken] ->
         TokenRecord.token t = ExhibitorLeads.bearer (JS.orElse (authorization request) "") ->
         (TokenRecord.expiresAt t <= 2000)%Z))
  /\ ((exists error, ExhibitorLeads.GET 2000 request w = (Fail 401 error, w))
      /\ (forall nowId nowStamp (capture : Request Leads.Body) w',
            Leads.POST nowId nowStamp capture w'
            = Leads.POST nowId nowStamp (mkRequest None (json capture)) w')
      /\ (forall call w',
            (forall nowId nowStamp capture, call <> CallLead nowId nowStamp capture) ->
            leadsFile (perform call w') = leadsFile w')).
Proof.
  intros w request.
  assert (forall t, In t [staleToken; liveToken] ->
            TokenRecord.token t = ExhibitorLeads.bearer (JS.orElse (authorization request) "") ->
            (TokenRecord.expiresAt t <= 2000)%Z) as Hinvalid.
  { intros t [<-|[<-|[]]] E; [simpl; lia | discriminate E]. }
  split; [split; [reflexivity | exact Hinvalid]|].
  exact (exhibitor_leads_rejects_invalid_token 2000 request w [staleToken; liveToken]
           eq_refl Hinvalid).
Defined.

Example exhibitor_leads_live_token :
  fst (ExhibitorLeads.GET 2000 (mkRequest (Some "bearer t-new") tt)
         (mkWorld Missing Missing (Content [boothLead]) (Content [staleToken; liveToken])))
  = Json 200 (ExhibitorLeads.mkPortal [boothLead] "new@x.com").
Proof. reflexivity. Qed.

(** ** Registration *)

Lemma valid_passes body :
  valid body ->
  negb (JS.truthy (Register.firstName body)) || negb (JS.truthy (Register.lastName body))
  || negb (JS.truthy (Register.email body)) = false.
Proof. intros (-> & -> & ->). reflexivity. Qed.

(** A valid registration whose email is new to the store: one attendee more,
    at the end, answered 201 with the badge payload of its id. *)
Lemma register_creates nowId nowCreated body w attendees :
  valid body ->
  Register.readAttendees (attendeesFile w) = inr attendees ->
  (forall a, In a attendees ->
     Register.sameEmail (Register.normalizeEmail (default "" (Register.email body))) a = false) ->
  let a := Register.newAttendee nowId nowCreated body in
  Register.POST nowId nowCreated body w
  = (Json 201 (Register.mkCreated a ("hemisphere:" +:+ JS.ofNumber nowId)),
     setAttendees (Content (attendees ++ [a])) w)
  /\ length (attendees ++ [a]) = S (length attendees).
Proof.
  intros Hvalid Hread Hnew a. split.
  - unfold Register.POST. rewrite (valid_passes _ Hvalid), Hread, (find_all_false _ _ Hnew).
    unfold Register.readAttendees in Hread.
    destruct (attendeesFile w); simpl in Hread; try discriminate; reflexivity.
  - rewrite length_app. simpl. lia.
Qed.

(** C3, as stated, fails: a registration request whose email is the one of
    a stored attendee but whose first name is missing is answered 400, not
    409 (the store is unchanged all the same). *)
Lemma register_duplicate_without_name_is_400 :
  let w := mkWorld (Content [adaStored]) Missing Missing Missing in
  Register.sameEmail
    (Register.normalizeEmail (default "" (Register.email nameless))) adaStored = true
  /\ Register.POST 1700000000005 1700000000006 nameless w
     = (Fail 400 "firstName, lastName, and email are required", w).
Proof. split; reflexivity. Qed.

(** C3, amended.  A registration request that carries a first name, a last
    name and an email, and whose email, trimmed and lower-cased, equals the
    trimmed and lower-cased email of an attendee of the store, is answered 409
    and leaves every file as it was. *)
Theorem register_duplicate_email_conflict
    (nowId nowCreated : Z) (body : Register.Body) (w : World)
    (attendees : list Attendee.t) (a : Attendee.t) :
  valid body ->
  attendeesFile w = Content attendees ->
  In a attendees ->
  Register.normalizeEmail (JS.orElse (Attendee.email a) "")
  = Register.normalizeEmail (default "" (Register.email body)) ->
  Register.POST nowId nowCreated body w
  = (Fail 409 "An attendee with this email is already registered.", w).
Proof.
  intros Hvalid Hw Hin Hsame. unfold Register.POST.
  rewrite (valid_passes _ Hvalid), Hw. simpl.
  destruct (find_some_in
              (Register.sameEmail (Register.normalizeEmail (default "" (Register.email body))))
              attendees a Hin) as [x ->]; [|reflexivity].
  unfold Register.sameEmail. rewrite Hsame. apply String.eqb_refl.
Qed.

Lemma register_duplicate_email_conflict_witness :
  let w := mkWorld (Content [adaStored]) (Content []) Missing Missing in
  (valid adaAgain
   /\ attendeesFile w = Content [adaStored]
   /\ In adaStored [adaStored]
   /\ Register.normalizeEmail (JS.orElse (Attendee.email adaStored) "")
      = Register.normalizeEmail (default "" (Register.email adaAgain)))
  /\ Register.POST 1700000000005 1700000000006 adaAgain w
     = (Fail 409 "An attendee with this email is already registered.", w).
Proof.
  intros w.
  split; [repeat split; try reflexivity; now left|].
  exact (register_duplicate_email_conflict 1700000000005 1700000000006 adaAgain w
           [adaStored] adaStored (conj eq_refl (conj eq_refl eq_refl)) eq_refl
           (or_introl eq_refl) eq_refl).
Defined.

(** C4.  Two valid registrations with different emails served within the
    same millisecond: both are answered 201, the store grows by one each
    time, each badge payload is [hemisphere:] followed by the id, and the two
    attendees share that id. *)
Theorem register_same_millisecond_same_id :
  let r1 := Register.POST 1700000000000 1700000000000 ada emptyWorld in
  let r2 := Register.POST 1700000000000 1700000000000 grace (snd r1) in
  fst r1 = Json 201 (Register.mkCreated
                       (Register.newAttendee 1700000000000 1700000000000 ada)
                       "hemisphere:1700000000000")
  /\ fst r2 = Json 201 (Register.mkCreated
                          (Register.newAttendee 1700000000000 1700000000000 grace)
                          "hemisphere:1700000000000")
  /\ Attendee.email <$> stored (attendeesFile (snd r2))
     = [Some "ada@x.com"; Some "grace@x.com"]
  /\ Attendee.id <$> stored (attendeesFile (snd r2))
     = ["1700000000000"; "1700000000000"].
Proof. repeat split; reflexivity. Qed.

(** ** Unreadable and corrupt files *)



(** ** More on searching a collection *)

Section Searching.
Context {A : Type}.
Implicit Types (p : A -> bool) (l : list A).

Lemma findIndex_none p l : findIndex p l = None <-> (forall x, In x l -> p x = false).
Proof.
  induction l as [|y r IH]; simpl.
  - split; [intros _ x []|reflexivity].
  - destruct (p y) eqn:Hy.
    + split; [discriminate|]. intros H. rewrite (H y) in Hy by now left. discriminate.
    + destruct (findIndex p r) as [j|]; simpl.
      * split; [discriminate|]. intros H.
        assert (Some j = @None nat) as E; [|discriminate E].
        apply IH. intros x Hx. apply H. now right.
      * split; [|reflexivity]. intros _ x [<-|Hx]; [exact Hy|].
        now apply (proj1 IH).
Qed.




Lemma lookup_snoc l (x : A) : (l ++ [x]) !! length l = Some x.
Proof. induction l as [|z r IH]; simpl; [reflexivity|exact IH]. Qed.

End Searching.

(** ** Check-in, lookup and edit *)

Lemma hasId_eq i a : Attendee.hasId i a = true <-> Attendee.id a = i.
Proof. apply String.eqb_eq. Qed.

(** X1.  A [POST /api/checkin] that finds its attendee answers 200 and
    rewrites the store with that one record replaced: the record keeps its
    id, names, email, company, event and creation time; a check-in (flag true
    or left out) stores [checkedIn] true with the time of the request, an undo
    (flag false) stores [checkedIn] false and removes [checkedInAt]; every
    other attendee and the length of the store are as before. *)
Theorem checkin_changes_only_status
    (attendees : list Attendee.t) (w : World) (i : nat) (a : Attendee.t)
    (now : Z) (body : Checkin.Body) :
  attendeesFile w = Content attendees ->
  findIndex (Attendee.hasId (Checkin.id body)) attendees = Some i ->
  attendees !! i = Some a ->
  exists a',
    Checkin.POST now body w
    = (Json 200 (Checkin.mkSaved true a'), setAttendees (Content (<[i := a']> attendees)) w)
    /\ (Attendee.id a' = Attendee.id a
        /\ Attendee.firstName a' = Attendee.firstName a
        /\ Attendee.lastName a' = Attendee.lastName a
        /\ Attendee.name a' = Attendee.name a
        /\ Attendee.email a' = Attendee.email a
        /\ Attendee.company a' = Attendee.company a
        /\ Attendee.eventId a' = Attendee.eventId a
        /\ Attendee.createdAt a' = Attendee.createdAt a)
    /\ (Attendee.checkedIn a' = Some (default true (Checkin.checkedIn body))
        /\ Attendee.checkedInAt a'
           = if default true (Checkin.checkedIn body) then Some now else None)
    /\ (forall j, j <> i -> <[i := a']> attendees !! j = attendees !! j)
    /\ length (<[i := a']> attendees) = length attendees.
Proof.
  intros Hw Hfind Hat.
  exists (Checkin.apply now (default true (Checkin.checkedIn body)) a).
  split.
  - unfold Checkin.POST. rewrite Hw. simpl. now rewrite Hfind, Hat.
  - split; [destruct (default true (Checkin.checkedIn body)); repeat split|].
    split; [destruct (default true (Checkin.checkedIn body)); split; reflexivity|].
    split; [intros j Hj; now apply list_lookup_insert_ne | apply length_insert].
Qed.

Lemma checkin_changes_only_status_witness :
  let attendees := [adaCheckedIn] in
  let w := mkWorld (Content attendees) Missing Missing Missing in
  let body := Checkin.mkBody "1700000000000" (Some false) in
  (attendeesFile w = Content attendees
   /\ findIndex (Attendee.hasId (Checkin.id body)) attendees = Some 0%nat
   /\ attendees !! 0%nat = Some adaCheckedIn)
  /\ exists a',
      Checkin.POST 99 body w
      = (Json 200 (Checkin.mkSaved true a'),
         setAttendees (Content (<[0%nat := a']> attendees)) w)
      /\ (Attendee.id a' = Attendee.id adaCheckedIn
          /\ Attendee.firstName a' = Attendee.firstName adaCheckedIn
          /\ Attendee.lastName a' = Attendee.lastName adaCheckedIn
          /\ Attendee.name a' = Attendee.name adaCheckedIn
          /\ Attendee.email a' = Attendee.email adaCheckedIn
          /\ Attendee.company a' = Attendee.company adaCheckedIn
          /\ Attendee.eventId a' = Attendee.eventId adaCheckedIn
          /\ Attendee.createdAt a' = Attendee.createdAt adaCheckedIn)
      /\ (Attendee.checkedIn a' = Some (default true (Checkin.checkedIn body))
          /\ Attendee.checkedInAt a'
             = if default true (Checkin.checkedIn body) then Some 99%Z else None)
      /\ (forall j, j <> 0%nat -> <[0%nat := a']> attendees !! j = attendees !! j)
      /\ length (<[0%nat := a']> attendees) = length attendees.
Proof.
  intros attendees w body.
  split; [repeat split; reflexivity|].
  exact (checkin_changes_only_status attendees w 0 adaCheckedIn 99 body
           eq_refl eq_refl eq_refl).
Defined.

(** X2.  On a readable attendee file, [POST /api/checkin] answers 404 exactly
    when no stored attendee has the id of the body, and 200 otherwise; a 404
    changes no file. *)
Theorem checkin_unknown_id
    (attendees : list Attendee.t) (w : World) (now : Z) (body : Checkin.Body) :
  attendeesFile w = Content attendees ->
  let r := Checkin.POST now body w in
  (status (fst r) = 404%nat
   <-> forall a, In a attendees -> Attendee.id a <> Checkin.id body)
  /\ (status (fst r) = 404%nat \/ status (fst r) = 200%nat)
  /\ (status (fst r) = 404%nat -> snd r = w).
Proof.
  intros Hw r. subst r. unfold Checkin.POST. rewrite Hw. simpl.
  destruct (findIndex (Attendee.hasId (Checkin.id body)) attendees) as [i|] eqn:Hfind.
  - destruct (findIndex_lookup _ _ _ Hfind) as (a & Hat & Ha). rewrite Hat. simpl.
    split; [|split; [now right | discriminate]].
    split; [discriminate|]. intros Hnone.
    apply list_elem_of_lookup_2, list_elem_of_In in Hat.
    apply hasId_eq in Ha. now destruct (Hnone a Hat).
  - simpl. split; [|split; [now left | reflexivity]].
    split; [|reflexivity]. intros _ a Ha Hid.
    rewrite findIndex_none in Hfind. specialize (Hfind a Ha).
    apply hasId_eq in Hid. congruence.
Qed.

Lemma checkin_unknown_id_witness :
  let attendees := [adaStored] in
  let w := mkWorld (Content attendees) Missing Missing Missing in
  attendeesFile w = Content attendees
  /\ (let r := Checkin.POST 99 (Checkin.mkBody "hemisphere:1700000000000" None) w in
      (status (fst r) = 404%nat
       <-> forall a, In a attendees ->
             Attendee.id a <> Checkin.id (Checkin.mkBody "hemisphere:1700000000000" None))
      /\ (status (fst r) = 404%nat \/ status (fst r) = 200%nat)
      /\ (status (fst r) = 404%nat -> snd r = w)).
Proof.
  intros attendees w. split; [reflexivity|].
  exact (checkin_unknown_id attendees w 99
           (Checkin.mkBody "hemisphere:1700000000000" None) eq_refl).
Defined.

(** X3.  The attendee lookup and the attendee edit read the id they are
    given only from after its last colon: the badge payload, or any other
    prefix ending in a colon, addresses the same attendee as the bare id. *)
Theorem attendee_routes_ignore_prefix
    (before id : string) (payload : gmap string (option string)) (w : World) :
  Attendees.GET (before +:+ ":" +:+ id) w = Attendees.GET id w
  /\ Attendees.PATCH (before +:+ ":" +:+ id) payload w = Attendees.PATCH id payload w.
Proof.
  assert (Attendees.idOf (before +:+ ":" +:+ id) = Attendees.idOf id) as Hid.
  { unfold Attendees.idOf. apply pop_split_after. }
  unfold Attendees.GET, Attendees.PATCH. now rewrite Hid.
Qed.

(** X4.  After an edit that is answered 200, a lookup of the same id is
    answered 200 with the very attendee the edit returned. *)
Theorem patch_then_get
    (rawId : string) (payload : gmap string (option string)) (w : World)
    (attendees : list Attendee.t) (patched : Attendees.Patched) :
  attendeesFile w = Content attendees ->
  fst (Attendees.PATCH rawId payload w) = Json 200 patched ->
  Attendees.GET rawId (snd (Attendees.PATCH rawId payload w))
  = Json 200 (Attendees.attendee patched).
Proof.
  intros Hw. unfold Attendees.PATCH. rewrite Hw. simpl.
  destruct (findIndex (Attendee.hasId (Attendees.idOf rawId)) attendees) as [i|] eqn:Hfind;
    [|discriminate].
  destruct (findIndex_lookup _ _ _ Hfind) as (a & Hat & Ha). rewrite Hat. simpl.
  intros [= <-]. unfold Attendees.GET. simpl.
  destruct (update_fields payload a) as [(Hid & _) _].
  assert (Attendee.hasId (Attendees.idOf rawId) (Attendees.update payload a) = true) as Hu.
  { apply hasId_eq. rewrite Hid. now apply hasId_eq. }
  rewrite (findIndex_find _ _ i (Attendees.update payload a)); [reflexivity| |].
  - now apply findIndex_insert.
  - apply list_lookup_insert_eq. now apply lookup_lt_Some in Hat.
Qed.

Lemma patch_then_get_witness :
  let w := mkWorld (Content [adaCheckedIn]) Missing Missing Missing in
  let patched := Attendees.mkPatched true
                   (Attendees.named (Attendees.update renameToGrace adaCheckedIn)) in
  (attendeesFile w = Content [adaCheckedIn]
   /\ fst (Attendees.PATCH "hemisphere:1700000000000" renameToGrace w) = Json 200 patched)
  /\ Attendees.GET "hemisphere:1700000000000"
       (snd (Attendees.PATCH "hemisphere:1700000000000" renameToGrace w))
     = Json 200 (Attendees.attendee patched).
Proof.
  intros w patched. split; [split; reflexivity|].
  exact (patch_then_get "hemisphere:1700000000000" renameToGrace w [adaCheckedIn] patched
           eq_refl eq_refl).
Defined.

(** ** The newest-first sorts *)

Section NewestFirst.
Context {A : Type} (instant : A -> option Z).

Let dated (a : A) : Prop := is_Some (instant a).

Lemma notOlder_trans a b c :
  notOlder instant a b -> notOlder instant b c -> notOlder instant a c.
Proof.
  unfold notOlder. destruct (instant a), (instant b), (instant c); try easy. lia.
Qed.

Lemma insertBy_sorted x l :
  dated x -> Forall dated l ->
  StronglySorted (notOlder instant) l ->
  StronglySorted (notOlder instant) (Attendees.insertBy (byInstant instant) x l).
Proof.
  intros [tx Hx] Hl Hsorted. induction Hsorted as [|y r Hr IH Hy]; simpl.
  - repeat constructor.
  - apply Forall_cons in Hl as [[ty Hty] Hl].
    assert (byInstant instant x y = ty - tx)%Z as Hcmp
        by (unfold byInstant; now rewrite Hx, Hty).
    rewrite Hcmp. destruct (Z.leb_spec (ty - tx) 0) as [Hle|Hgt].
    + assert (notOlder instant x y) as Hxy
          by (unfold notOlder; rewrite Hx, Hty; lia).
      constructor; [now constructor|]. constructor; [exact Hxy|].
      eapply Forall_impl; [exact Hy|]. intros z Hz. now apply (notOlder_trans x y z).
    + constructor; [now apply IH|].
      rewrite (insertBy_perm (byInstant instant) x r). constructor; [|exact Hy].
      unfold notOlder. rewrite Hx, Hty. lia.
Qed.

(** On dated elements the sort returns them newest first. *)
Lemma sortBy_sorted l :
  Forall dated l ->
  StronglySorted (notOlder instant) (Attendees.sortBy (byInstant instant) l).
Proof.
  induction l as [|x r IH]; simpl; [constructor|].
  intros [Hx Hr]%Forall_cons. apply insertBy_sorted; [exact Hx| |now apply IH].
  now rewrite (sortBy_perm (byInstant instant) r).
Qed.

End NewestFirst.

(** X5.  [GET /api/attendees] on a readable file answers 200 with a
    reordering of the stored attendees (nobody dropped, nobody added); when
    every attendee has a creation time, the list is in order of creation time,
    newest first. *)
Theorem attendee_list_newest_first (attendees : list Attendee.t) (w : World) :
  attendeesFile w = Content attendees ->
  exists sorted,
    Attendees.GETall w = Json 200 sorted
    /\ Permutation sorted attendees
    /\ (Forall (fun a => is_Some (Attendee.createdAt a)) attendees ->
        StronglySorted (notOlder Attendee.createdAt) sorted).
Proof.
  intros Hw. exists (Attendees.sortBy Attendees.newestFirst attendees).
  split; [unfold Attendees.GETall; now rewrite Hw|].
  split; [apply sortBy_perm|]. intros Hdated.
  now apply (sortBy_sorted Attendee.createdAt).
Qed.

Lemma attendee_list_newest_first_witness :
  let attendees := [adaStored; bob] in
  let w := mkWorld (Content attendees) Missing Missing Missing in
  attendeesFile w = Content attendees
  /\ exists sorted,
      Attendees.GETall w = Json 200 sorted
      /\ Permutation sorted attendees
      /\ (Forall (fun a => is_Some (Attendee.createdAt a)) attendees ->
          StronglySorted (notOlder Attendee.createdAt) sorted).
Proof.
  intros attendees w. split; [reflexivity|].
  exact (attendee_list_newest_first attendees w eq_refl).
Defined.

Example attendee_list_sample :
  Attendees.GETall (mkWorld (Content [adaStored; bob]) Missing Missing Missing)
  = Json 200 [bob; adaStored].
Proof. reflexivity. Qed.

(** X6.  The analytics page, after loading a readable scan log whose entries
    all carry a timestamp, holds a reordering of the log that is newest first,
    and the last scan it shows is the latest timestamp of the log (none when
    the log is empty); when the scan-log file is unreadable, corrupt or
    missing it holds no entry. *)
Theorem analytics_last_scan_is_latest (logs : list ScanLog.t) (w : World) :
  scanlogsFile w = Content logs ->
  Forall (fun l => is_Some (ScanLog.timestamp l)) logs ->
  Permutation (AnalyticsPage.loadLogs w) logs
  /\ StronglySorted (notOlder ScanLog.timestamp) (AnalyticsPage.loadLogs w)
  /\ match AnalyticsPage.lastScan (AnalyticsPage.loadLogs w) with
     | Some latest =>
         (exists l, In l logs /\ ScanLog.timestamp l = Some latest)
         /\ forall l t, In l logs -> ScanLog.timestamp l = Some t -> (t <= latest)%Z
     | None => logs = []
     end
  /\ (forall d w', AnalyticsPage.loadLogs (setScanlogs (damaged d) w') = [])
  /\ (forall w', AnalyticsPage.loadLogs (setScanlogs Missing w') = []).
Proof.
  intros Hw Hdated.
  assert (AnalyticsPage.loadLogs w = Attendees.sortBy (byInstant ScanLog.timestamp) logs)
    as Hload by (unfold AnalyticsPage.loadLogs, Scanlog.GET; now rewrite Hw).
  pose proof (sortBy_perm (byInstant ScanLog.timestamp) logs) as Hperm.
  pose proof (sortBy_sorted ScanLog.timestamp logs Hdated) as Hsorted.
  rewrite Hload. split; [exact Hperm|]. split; [exact Hsorted|].
  split; [|split; [intros [] w'; reflexivity|intros w'; reflexivity]].
  destruct (Attendees.sortBy (byInstant ScanLog.timestamp) logs) as [|first rest] eqn:E.
  - simpl. now apply Permutation_nil in Hperm.
  - simpl. assert (In first logs) as Hfirst
        by (apply (Permutation_in _ Hperm); now left).
    rewrite Forall_forall in Hdated.
    destruct (Hdated first) as [latest Hlatest]; [now apply list_elem_of_In|].
    rewrite Hlatest. split; [eauto|]. intros l t Hl Ht.
    symmetry in Hperm. apply (Permutation_in _ Hperm) in Hl as [<-|Hl]; [rewrite Hlatest in Ht; injection Ht as <-; lia|].
    apply StronglySorted_inv in Hsorted as [_ Hrest].
    rewrite List.Forall_forall in Hrest. specialize (Hrest l Hl).
    unfold notOlder in Hrest. now rewrite Hlatest, Ht in Hrest.
Qed.

Lemma analytics_last_scan_is_latest_witness :
  let logs := [ScanLog.mk (Some 6%Z) (Some "1") None None (Some "scan") (Some 7%Z);
               ScanLog.mk (Some 9%Z) (Some "2") None None (Some "scan") (Some 10%Z)] in
  let w := mkWorld Missing (Content logs) Missing Missing in
  (scanlogsFile w = Content logs
   /\ Forall (fun l => is_Some (ScanLog.timestamp l)) logs)
  /\ (Permutation (AnalyticsPage.loadLogs w) logs
      /\ StronglySorted (notOlder ScanLog.timestamp) (AnalyticsPage.loadLogs w)
      /\ match AnalyticsPage.lastScan (AnalyticsPage.loadLogs w) with
         | Some latest =>
             (exists l, In l logs /\ ScanLog.timestamp l = Some latest)
             /\ forall l t, In l logs -> ScanLog.timestamp l = Some t -> (t <= latest)%Z
         | None => logs = []
         end
      /\ (forall d w', AnalyticsPage.loadLogs (setScanlogs (damaged d) w') = [])
      /\ (forall w', AnalyticsPage.loadLogs (setScanlogs Missing w') = [])).
Proof.
  intros logs w.
  assert (Forall (fun l => is_Some (ScanLog.timestamp l)) logs) as Hdated
    by (repeat constructor; eexists; reflexivity).
  split; [split; [reflexivity|exact Hdated]|].
  exact (analytics_last_scan_is_latest logs w eq_refl Hdated).
Defined.

(** ** More on trimming and case *)

Section Normalising.

Lemma isSpace_lowerChar c : JS.isSpace (JS.lowerChar c) = JS.isSpace c.
Proof. destruct c as [[] [] [] [] [] [] [] []]; reflexivity. Qed.

Lemma lowerChar_idem c : JS.lowerChar (JS.lowerChar c) = JS.lowerChar c.
Proof. destruct c as [[] [] [] [] [] [] [] []]; reflexivity. Qed.

Lemma toLowerCase_idem s : JS.toLowerCase (JS.toLowerCase s) = JS.toLowerCase s.
Proof. induction s as [|c r IH]; simpl; [reflexivity|]. now rewrite lowerChar_idem, IH. Qed.

Lemma trimStart_toLowerCase s :
  JS.trimStart (JS.toLowerCase s) = JS.toLowerCase (JS.trimStart s).
Proof.
  induction s as [|c r IH]; simpl; [reflexivity|].
  rewrite isSpace_lowerChar. now destruct (JS.isSpace c).
Qed.

Lemma trimEnd_toLowerCase s :
  JS.trimEnd (JS.toLowerCase s) = JS.toLowerCase (JS.trimEnd s).
Proof.
  induction s as [|c r IH]; simpl; [reflexivity|].
  rewrite IH, isSpace_lowerChar.
  destruct (JS.trimEnd r); simpl; [now destruct (JS.isSpace c)|reflexivity].
Qed.

Lemma trim_toLowerCase s : JS.trim (JS.toLowerCase s) = JS.toLowerCase (JS.trim s).
Proof. unfold JS.trim. now rewrite trimStart_toLowerCase, trimEnd_toLowerCase. Qed.

Lemma trimEnd_idem s : JS.trimEnd (JS.trimEnd s) = JS.trimEnd s.
Proof.
  induction s as [|c r IH]; simpl; [reflexivity|].
  destruct (JS.trimEnd r) as [|d r'] eqn:E.
  - destruct (JS.isSpace c) eqn:Hc; simpl; [reflexivity|]. now rewrite Hc.
  - change (JS.trimEnd (String c (String d r')))
      with (match JS.trimEnd (String d r') with
            | EmptyString => if JS.isSpace c then EmptyString else String c EmptyString
            | t => String c t
            end).
    now rewrite IH.
Qed.

(** What [trimStart] returns has no white space in front. *)
Lemma trimStart_head s :
  JS.trimStart s = EmptyString
  \/ exists c r, JS.trimStart s = String c r /\ JS.isSpace c = false.
Proof.
  induction s as [|c r IH]; simpl; [now left|].
  destruct (JS.isSpace c) eqn:Hc; [exact IH|]. right. eauto.
Qed.

Lemma trim_idem s : JS.trim (JS.trim s) = JS.trim s.
Proof.
  unfold JS.trim.
  destruct (trimStart_head s) as [->|(c & r & -> & Hc)]; [reflexivity|].
  rewrite (trimEnd_keep c r Hc), (trimStart_keep _ _ Hc), <- (trimEnd_keep c r Hc).
  apply trimEnd_idem.
Qed.

(** Normalising an email twice is normalising it once. *)
Lemma normalizeEmail_idem e :
  Register.normalizeEmail (Register.normalizeEmail e) = Register.normalizeEmail e.
Proof.
  unfold Register.normalizeEmail.
  now rewrite trim_toLowerCase, trim_idem, toLowerCase_idem.
Qed.

End Normalising.

(** ** Registration, continued *)

Lemma newAttendee_key nowId nowCreated body :
  emailKey (Register.newAttendee nowId nowCreated body)
  = Register.normalizeEmail (default "" (Register.email body)).
Proof.
  unfold emailKey, Register.newAttendee. simpl. unfold JS.orElse, JS.truthy. simpl.
  destruct (String.eqb_spec (Register.normalizeEmail (default "" (Register.email body))) "")
    as [E|_]; simpl.
  - now rewrite E.
  - apply normalizeEmail_idem.
Qed.

(** The four ways a registration ends. *)
Lemma register_cases nowId nowCreated body w :
  let r := Register.POST nowId nowCreated body w in
  (snd r = w /\ exists s e, fst r = Fail s e)
  \/ (valid body
      /\ exists attendees,
           Register.readAttendees (attendeesFile w) = inr attendees
           /\ (forall a, In a attendees ->
                 emailKey a <> Register.normalizeEmail (default "" (Register.email body)))
           /\ r = (Json 201 (Register.mkCreated (Register.newAttendee nowId nowCreated body)
                               ("hemisphere:" +:+ JS.ofNumber nowId)),
                   setAttendees
                     (Content (attendees ++ [Register.newAttendee nowId nowCreated body])) w)).
Proof.
  intros r. subst r. unfold Register.POST.
  destruct (JS.truthy (Register.firstName body)) eqn:H1; simpl; [|left; eauto].
  destruct (JS.truthy (Register.lastName body)) eqn:H2; simpl; [|left; eauto].
  destruct (JS.truthy (Register.email body)) eqn:H3; simpl; [|left; eauto].
  destruct (Register.readAttendees (attendeesFile w)) as [e|attendees] eqn:Hread;
    [left; eauto|].
  destruct (List.find _ attendees) eqn:Hfind; [left; eauto|].
  destruct (writeJson (attendeesFile w) _) as [e|f'] eqn:Hwrite; [left; eauto|].
  right. split; [now repeat split|]. exists attendees. split; [reflexivity|]. split.
  - intros a Ha Hkey. apply (find_none _ _ Hfind) in Ha.
    unfold Register.sameEmail in Ha. unfold emailKey in Hkey.
    rewrite Hkey, String.eqb_refl in Ha. discriminate.
  - unfold Register.readAttendees in Hread.
    destruct (attendeesFile w); simpl in *; try discriminate; congruence.
Qed.

(** X7.  Registration keeps the emails of the store pairwise different
    (compared trimmed and without case): whatever the request and however it
    is answered, a store without two attendees of the same email is still one
    afterwards. *)
Theorem register_keeps_emails_distinct
    (nowId nowCreated : Z) (body : Register.Body) (w : World) :
  NoDup (emailKey <$> stored (attendeesFile w)) ->
  NoDup (emailKey <$> stored (attendeesFile (snd (Register.POST nowId nowCreated body w)))).
Proof.
  intros Hdistinct.
  destruct (register_cases nowId nowCreated body w)
    as [[-> _]|(_ & attendees & Hread & Hnew & ->)]; [exact Hdistinct|].
  assert (stored (attendeesFile w) = attendees) as Hstored.
  { unfold Register.readAttendees in Hread.
    destruct (attendeesFile w); simpl in *; try discriminate; congruence. }
  rewrite Hstored in Hdistinct.
  cbn [snd setAttendees attendeesFile stored]. rewrite fmap_app.
  apply NoDup_app. split; [exact Hdistinct|]. split; [|apply NoDup_singleton].
  intros key Hkey [<-|[]]%list_elem_of_In.
  apply list_elem_of_fmap in Hkey as (a & Hkey & Ha%list_elem_of_In).
  rewrite newAttendee_key in Hkey. now destruct (Hnew a Ha).
Qed.

Lemma register_keeps_emails_distinct_witness :
  let w := mkWorld (Content [adaStored; bob]) Missing Missing Missing in
  NoDup (emailKey <$> stored (attendeesFile w))
  /\ NoDup (emailKey <$> stored (attendeesFile
              (snd (Register.POST 1700000000900 1700000000901 grace w)))).
Proof.
  intros w.
  assert (NoDup (emailKey <$> stored (attendeesFile w))) as Hdistinct.
  { apply NoDup_cons. split; [|apply NoDup_singleton].
    intros [E|[]]%list_elem_of_In. discriminate E. }
  split; [exact Hdistinct|].
  exact (register_keeps_emails_distinct 1700000000900 1700000000901 grace w Hdistinct).
Defined.

(** A stored email stays in the store under every request but an edit. *)
Lemma email_kept call w attendees key :
  isPatchCall call = false ->
  attendeesFile w = Content attendees ->
  (exists a, In a attendees /\ emailKey a = key) ->
  exists after,
    attendeesFile (perform call w) = Content after
    /\ exists a, In a after /\ emailKey a = key.
Proof.
  intros Hcall Hw (a & Ha & Hkey). destruct call; try discriminate Hcall; simpl.
  - destruct (register_cases nowId nowCreated body w)
      as [[-> _]|(_ & l & Hread & _ & ->)].
    + exists attendees. eauto.
    + unfold Register.readAttendees in Hread. rewrite Hw in Hread. simpl in Hread.
      injection Hread as <-. eexists. split; [reflexivity|].
      exists a. split; [apply in_or_app; now left|exact Hkey].
  - unfold Checkin.POST. rewrite Hw. simpl.
    destruct (findIndex _ attendees) as [i|]; [|simpl; eauto].
    destruct (attendees !! i) as [x|] eqn:Hx; simpl; [|eauto].
    eexists. split; [reflexivity|].
    apply list_elem_of_In, list_elem_of_lookup_1 in Ha as [j Hj].
    destruct (decide (j = i)) as [->|Hne].
    + rewrite Hx in Hj. injection Hj as ->.
      exists (Checkin.apply now (default true (Checkin.checkedIn body)) a). split.
      * apply list_elem_of_In, (list_elem_of_lookup_2 _ i), list_lookup_insert_eq.
        now apply lookup_lt_Some in Hx.
      * rewrite <- Hkey. unfold Checkin.apply.
        now destruct (default true (Checkin.checkedIn body)).
    + exists a. split; [|exact Hkey].
      apply list_elem_of_In, (list_elem_of_lookup_2 _ j).
      now rewrite list_lookup_insert_ne.
  - exists attendees. split; [|eauto]. unfold Scanlog.POST. crush_handler; exact Hw.
  - exists attendees. split; [|eauto]. unfold Leads.POST. crush_handler; exact Hw.
  - exists attendees. split; [|eauto]. unfold ExhibitorLeads.GET. crush_handler; exact Hw.
  - exists attendees. split; [|eauto].
    unfold RequestLink.POST, RequestLink.readTokens. crush_handler; exact Hw.
Qed.

Lemma email_kept_run calls w attendees key :
  forallb (fun c => negb (isPatchCall c)) calls = true ->
  attendeesFile w = Content attendees ->
  (exists a, In a attendees /\ emailKey a = key) ->
  exists after,
    attendeesFile (run calls w) = Content after
    /\ exists a, In a after /\ emailKey a = key.
Proof.
  revert w attendees. induction calls as [|call calls IH]; intros w attendees Hcalls Hw Hin.
  - exists attendees. eauto.
  - simpl in Hcalls. apply andb_prop in Hcalls as [Hcall%negb_true_iff Hcalls].
    destruct (email_kept call w attendees key Hcall Hw Hin) as (mid & Hmid & Hin').
    change (run (call :: calls) w) with (run calls (perform call w)).
    exact (IH _ _ Hcalls Hmid Hin').
Qed.

(** X8.  Once a registration has been answered 201, and as long as no
    attendee edit is among the requests served since, every valid registration
    with the same email, whatever its case and the white space around it, is
    answered 409 and changes nothing. *)
Theorem register_then_duplicate_rejected
    (nowId nowCreated laterId laterCreated : Z) (body again : Register.Body) (w : World)
    (created : Register.Created) (calls : list Call) :
  fst (Register.POST nowId nowCreated body w) = Json 201 created ->
  forallb (fun c => negb (isPatchCall c)) calls = true ->
  valid again ->
  Register.normalizeEmail (default "" (Register.email again))
  = Register.normalizeEmail (default "" (Register.email body)) ->
  let w' := run calls (snd (Register.POST nowId nowCreated body w)) in
  Register.POST laterId laterCreated again w'
  = (Fail 409 "An attendee with this email is already registered.", w').
Proof.
  intros Hcreated Hcalls Hvalid Hsame w'. subst w'.
  destruct (register_cases nowId nowCreated body w)
    as [[_ (s & e & Hfail)]|(_ & attendees & _ & _ & Hpost)]; [congruence|].
  rewrite Hpost. cbn [snd].
  destruct (email_kept_run calls
              (setAttendees
                 (Content (attendees ++ [Register.newAttendee nowId nowCreated body])) w)
              (attendees ++ [Register.newAttendee nowId nowCreated body])
              (Register.normalizeEmail (default "" (Register.email body)))
              Hcalls eq_refl) as (after & Hafter & a & Ha & Hkey).
  { exists (Register.newAttendee nowId nowCreated body). split.
    - apply in_or_app. right. now left.
    - apply newAttendee_key. }
  unfold Register.POST at 1.
  rewrite (valid_passes _ Hvalid), Hafter. cbn [Register.readAttendees readJson].
  destruct (find_some_in
              (Register.sameEmail (Register.normalizeEmail (default "" (Register.email again))))
              after a Ha) as [x ->]; [|reflexivity].
  unfold Register.sameEmail. fold (emailKey a). rewrite Hkey, Hsame. apply String.eqb_refl.
Qed.

Lemma register_then_duplicate_rejected_witness :
  let created := Register.mkCreated (Register.newAttendee 1700000000000 1700000000001 ada)
                   "hemisphere:1700000000000" in
  let calls := [CallCheckin 1700000000002 (Checkin.mkBody "1700000000000" None);
                CallRegister 1700000000003 1700000000004 grace;
                CallLead 2000 2001 (mkRequest None boothBody)] in
  (fst (Register.POST 1700000000000 1700000000001 ada emptyWorld) = Json 201 created
   /\ forallb (fun c => negb (isPatchCall c)) calls = true
   /\ valid adaAgain
   /\ Register.normalizeEmail (default "" (Register.email adaAgain))
      = Register.normalizeEmail (default "" (Register.email ada)))
  /\ (let w' := run calls (snd (Register.POST 1700000000000 1700000000001 ada emptyWorld)) in
      Register.POST 1700000000005 1700000000006 adaAgain w'
      = (Fail 409 "An attendee with this email is already registered.", w')).
Proof.
  intros created calls. split; [repeat split; reflexivity|].
  exact (register_then_duplicate_rejected 1700000000000 1700000000001
           1700000000005 1700000000006 ada adaAgain emptyWorld created calls
           eq_refl eq_refl (conj eq_refl (conj eq_refl eq_refl)) eq_refl).
Defined.

(** An edit of the stored email frees the address: the edit looks for no
    duplicate, and the same email then registers again. *)
Example register_after_email_edit :
  let w1 := snd (Register.POST 1700000000000 1700000000001 ada emptyWorld) in
  let w2 := snd (Attendees.PATCH "1700000000000" (<["email" := Some "other@x.com"]> ∅) w1) in
  status (fst (Register.POST 1700000000005 1700000000006 adaAgain w2)) = 201%nat
  /\ length (stored (attendeesFile
                       (snd (Register.POST 1700000000005 1700000000006 adaAgain w2))))
     = 2%nat.
Proof. split; reflexivity. Qed.



(** ** What a sequence of requests does to each file *)

Lemma run_cons call calls w : run (call :: calls) w = run calls (perform call w).
Proof. reflexivity. Qed.

Lemma scanlog_step call w logs :
  scanlogsFile w = Content logs ->
  scanlogsFile (perform call w) = Content (logs ++ loggedBy call).
Proof.
  intros Hw. destruct call; simpl; rewrite ?app_nil_r.
  - unfold Register.POST, Register.readAttendees. crush_handler; exact Hw.
  - unfold Checkin.POST. crush_handler; exact Hw.
  - unfold Attendees.PATCH. crush_handler; exact Hw.
  - unfold Scanlog.POST. now rewrite Hw.
  - unfold Leads.POST. crush_handler; exact Hw.
  - unfold ExhibitorLeads.GET. crush_handler; exact Hw.
  - unfold RequestLink.POST, RequestLink.readTokens. crush_handler; exact Hw.
Qed.

Lemma leads_step call w leads :
  leadsFile w = Content leads ->
  leadsFile (perform call w) = Content (leads ++ capturedBy call).
Proof.
  intros Hw. destruct call; simpl; rewrite ?app_nil_r.
  - unfold Register.POST, Register.readAttendees. crush_handler; exact Hw.
  - unfold Checkin.POST. crush_handler; exact Hw.
  - unfold Attendees.PATCH. crush_handler; exact Hw.
  - unfold Scanlog.POST. crush_handler; exact Hw.
  - unfold Leads.POST, Leads.readLeadsFile. now rewrite Hw.
  - unfold ExhibitorLeads.GET. crush_handler; exact Hw.
  - unfold RequestLink.POST, RequestLink.readTokens. crush_handler; exact Hw.
Qed.

(** X10.  The scan log is append-only under every sequence of requests: a
    readable scan log is afterwards the same log followed by exactly one entry
    per scan-log post of the sequence, in order; no request removes, rewrites
    or reorders an entry. *)
Theorem scan_log_append_only (calls : list Call) (w : World) (logs : list ScanLog.t) :
  scanlogsFile w = Content logs ->
  scanlogsFile (run calls w) = Content (logs ++ (calls ≫= loggedBy))
  /\ length (calls ≫= loggedBy) = length (List.filter isScanlogCall calls).
Proof.
  intros Hw. split.
  - revert w logs Hw. induction calls as [|call calls IH]; intros w logs Hw.
    + simpl. now rewrite app_nil_r.
    + rewrite run_cons, (IH _ _ (scanlog_step call w logs Hw)).
      now rewrite bind_cons, app_assoc.
  - clear. induction calls as [|call calls IH]; [reflexivity|].
    rewrite bind_cons, length_app, IH. now destruct call.
Qed.

Lemma scan_log_append_only_witness :
  let w := mkWorld (Content [adaStored]) (Content twoLogs) Missing Missing in
  let calls := [CallCheckin 5 (Checkin.mkBody "1700000000000" None);
                CallScanlog 6 7 (Scanlog.mkBody (Some "1700000000000") None None None);
                CallLead 8 9 (mkRequest None boothBody)] in
  scanlogsFile w = Content twoLogs
  /\ (scanlogsFile (run calls w) = Content (twoLogs ++ (calls ≫= loggedBy))
      /\ length (calls ≫= loggedBy) = length (List.filter isScanlogCall calls)).
Proof.
  intros w calls. split; [reflexivity|].
  exact (scan_log_append_only calls w twoLogs eq_refl).
Defined.

(** X11.  The lead file is append-only under every sequence of requests, and
    nothing is deduplicated: a readable lead file is afterwards the same leads
    followed by exactly one lead per capture of the sequence, in order. *)
Theorem leads_append_only (calls : list Call) (w : World) (leads : list Lead.t) :
  leadsFile w = Content leads ->
  leadsFile (run calls w) = Content (leads ++ (calls ≫= capturedBy))
  /\ length (calls ≫= capturedBy) = length (List.filter isLeadCall calls).
Proof.
  intros Hw. split.
  - revert w leads Hw. induction calls as [|call calls IH]; intros w leads Hw.
    + simpl. now rewrite app_nil_r.
    + rewrite run_cons, (IH _ _ (leads_step call w leads Hw)).
      now rewrite bind_cons, app_assoc.
  - clear. induction calls as [|call calls IH]; [reflexivity|].
    rewrite bind_cons, length_app, IH. now destruct call.
Qed.

Lemma leads_append_only_witness :
  let w := mkWorld Missing Missing (Content [boothLead]) Missing in
  let calls := [CallLead 8 9 (mkRequest None boothBody);
                CallLead 8 9 (mkRequest (Some "Bearer nope") boothBody)] in
  leadsFile w = Content [boothLead]
  /\ (leadsFile (run calls w) = Content ([boothLead] ++ (calls ≫= capturedBy))
      /\ length (calls ≫= capturedBy) = length (List.filter isLeadCall calls)).
Proof.
  intros w calls. split; [reflexivity|].
  exact (leads_append_only calls w [boothLead] eq_refl).
Defined.

Example capture_twice :
  length (stored (leadsFile (run [CallLead 8 9 (mkRequest None boothBody);
                                  CallLead 8 9 (mkRequest None boothBody)]
                               (mkWorld Missing Missing (Content []) Missing))))
  = 2%nat.
Proof. reflexivity. Qed.

Lemma Survive_refl l : Survive l l.
Proof. intros i a Ha. eauto. Qed.

Lemma Survive_trans l1 l2 l3 : Survive l1 l2 -> Survive l2 l3 -> Survive l1 l3.
Proof.
  intros H12 H23 i a Ha.
  destruct (H12 i a Ha) as (a2 & Ha2 & Hid2 & Hc2).
  destruct (H23 i a2 Ha2) as (a3 & Ha3 & Hid3 & Hc3).
  exists a3. split; [exact Ha3|]. split; congruence.
Qed.

Lemma Survive_snoc l x : Survive l (l ++ [x]).
Proof. intros i a Ha. exists a. split; [now apply lookup_app_l_Some|easy]. Qed.

Lemma Survive_insert l i a a' :
  l !! i = Some a ->
  Attendee.id a' = Attendee.id a -> Attendee.createdAt a' = Attendee.createdAt a ->
  Survive l (<[i := a']> l).
Proof.
  intros Hi Hid Hc j b Hb. destruct (decide (j = i)) as [->|Hne].
  - exists a'. split; [apply list_lookup_insert_eq; now apply lookup_lt_Some in Hi|].
    split; congruence.
  - exists b. split; [now rewrite list_lookup_insert_ne|easy].
Qed.

Lemma attendees_step call w attendees :
  attendeesFile w = Content attendees ->
  exists after, attendeesFile (perform call w) = Content after /\ Survive attendees after.
Proof.
  intros Hw. destruct call; simpl.
  - destruct (register_cases nowId nowCreated body w)
      as [[-> _]|(_ & l & Hread & _ & ->)].
    + eauto using Survive_refl.
    + unfold Register.readAttendees in Hread. rewrite Hw in Hread. simpl in Hread.
      injection Hread as <-. eauto using Survive_snoc.
  - unfold Checkin.POST. rewrite Hw. simpl.
    destruct (findIndex _ attendees) as [i|]; [|simpl; eauto using Survive_refl].
    destruct (attendees !! i) as [a|] eqn:Ha; simpl; [|eauto using Survive_refl].
    eexists. split; [reflexivity|]. apply (Survive_insert _ _ a); [exact Ha| |].
    + unfold Checkin.apply. now destruct (default true (Checkin.checkedIn body)).
    + unfold Checkin.apply. now destruct (default true (Checkin.checkedIn body)).
  - unfold Attendees.PATCH. rewrite Hw. simpl.
    destruct (findIndex _ attendees) as [i|]; [|simpl; eauto using Survive_refl].
    destruct (attendees !! i) as [a|] eqn:Ha; simpl; [|eauto using Survive_refl].
    destruct (update_fields payload a) as [(Hid & _ & Hc & _) _].
    eexists. split; [reflexivity|]. now apply (Survive_insert _ _ a).
  - exists attendees. split; [|apply Survive_refl].
    unfold Scanlog.POST. crush_handler; exact Hw.
  - exists attendees. split; [|apply Survive_refl].
    unfold Leads.POST. crush_handler; exact Hw.
  - exists attendees. split; [|apply Survive_refl].
    unfold ExhibitorLeads.GET. crush_handler; exact Hw.
  - exists attendees. split; [|apply Survive_refl].
    unfold RequestLink.POST, RequestLink.readTokens. crush_handler; exact Hw.
Qed.

(** X12.  No sequence of requests deletes or moves an attendee or changes an
    id: every attendee of a readable store is afterwards still at its index,
    with the id and the creation time it had, and the store is at least as
    long as before. *)
Theorem attendees_never_deleted (calls : list Call) (w : World) (attendees : list Attendee.t) :
  attendeesFile w = Content attendees ->
  exists after,
    attendeesFile (run calls w) = Content after
    /\ Survive attendees after
    /\ (length attendees <= length after)%nat.
Proof.
  intros Hw.
  assert (exists after, attendeesFile (run calls w) = Content after
                        /\ Survive attendees after) as (after & Hafter & Hsurvive).
  { revert w attendees Hw. induction calls as [|call calls IH]; intros w attendees Hw.
    - exists attendees. split; [exact Hw|apply Survive_refl].
    - destruct (attendees_step call w attendees Hw) as (mid & Hmid & H1).
      destruct (IH _ _ Hmid) as (after & Hafter & H2).
      exists after. split; [exact Hafter|]. now apply (Survive_trans _ mid). }
  exists after. split; [exact Hafter|]. split; [exact Hsurvive|].
  destruct attendees as [|x r] using rev_ind; [simpl; lia|].
  destruct (Hsurvive (length r) x (lookup_snoc r x)) as (a' & Ha' & _).
  apply lookup_lt_Some in Ha'. rewrite length_app. simpl. lia.
Qed.

Lemma attendees_never_deleted_witness :
  let w := mkWorld (Content [adaStored]) (Content []) Missing Missing in
  let calls := [CallCheckin 5 (Checkin.mkBody "1700000000000" None);
                CallPatch "1700000000000" renameToGrace;
                CallRegister 1700000000900 1700000000901 grace;
                CallCheckin 9 (Checkin.mkBody "1700000000000" (Some false))] in
  attendeesFile w = Content [adaStored]
  /\ exists after,
      attendeesFile (run calls w) = Content after
      /\ Survive [adaStored] after
      /\ (length [adaStored] <= length after)%nat.
Proof.
  intros w calls. split; [reflexivity|].
  exact (attendees_never_deleted calls w [adaStored] eq_refl).
Defined.

(** ** The magic link *)







(** ** The scanner page, continued *)









(** X16.  A manual check-in that finds a match takes the first one of the
    attendee list, which is newest first when every attendee has its creation
    time.  If that attendee is not checked in, the first holder of its id in
    the store is marked checked in at the time of the check-in request; if it
    is, the attendee file is left alone.  Either way a readable scan log gains
    exactly one entry, of method [manual], and the page shows the attendee
    found.  Trimming and lower-casing are those of the runtime. *)
Theorem manual_checkin_found
    (tx : Scanner.Text) (ui : Scanner.Ui) (w : World) (c : Scanner.Clock)
    (attendees : list Attendee.t) (logs : list ScanLog.t)
    (found a : Attendee.t) (i : nat) :
  Scanner.trimOf tx (Scanner.manualName ui) <> EmptyString ->
  attendeesFile w = Content attendees ->
  Forall (fun x => is_Some (Attendee.createdAt x)) attendees ->
  scanlogsFile w = Content logs ->
  List.find
    (fun x => JS.includes (Scanner.lowerOf tx (Scanner.fullNameOf tx x))
                (Scanner.lowerOf tx (Scanner.trimOf tx (Scanner.manualName ui))))
    (Attendees.sortBy Attendees.newestFirst attendees) = Some found ->
  findIndex (Attendee.hasId (Attendee.id found)) attendees = Some i ->
  attendees !! i = Some a ->
  let st := Scanner.handleManualCheckin tx c (ui, w) in
  snd st
  = mkWorld
      (Content (if Attendee.isCheckedIn found then attendees
                else <[i := Attendee.withCheckIn true (Some (Scanner.atCheckin c)) a]> attendees))
      (Content (logs ++ [Scanlog.newLog (Scanner.atLogId c) (Scanner.atLogStamp c)
                           (Scanner.logBodyOf tx "manual" found)]))
      (leadsFile w) (tokensFile w)
  /\ StronglySorted (notOlder Attendee.createdAt)
       (Attendees.sortBy Attendees.newestFirst attendees)
  /\ Scanner.attendee (fst st) = Scanner.shownOf tx found
  /\ Scanner.scanState (fst st) = Scanner.Found
  /\ Scanner.lastMethod (fst st) = "manual".
Proof.
  intros Hterm Hw Hdated Hlogs Hfound Hfind Hat st. subst st.
  unfold Scanner.handleManualCheckin.
  destruct (String.eqb_spec (Scanner.trimOf tx (Scanner.manualName ui)) "") as [E|_];
    [now destruct Hterm|].
  assert (Attendees.GETall w = Json 200 (Attendees.sortBy Attendees.newestFirst attendees))
    as -> by (unfold Attendees.GETall; now rewrite Hw).
  simpl Scanner.jsonIfOk.
  unfold Scanner.nameMatches. rewrite Hfound.
  assert (StronglySorted (notOlder Attendee.createdAt)
            (Attendees.sortBy Attendees.newestFirst attendees)) as Hsorted
    by now apply (sortBy_sorted Attendee.createdAt).
  destruct (Attendee.isCheckedIn found).
  - cbn [fst snd]. unfold Scanlog.POST. rewrite Hlogs. cbn [writeJson snd fst].
    unfold setScanlogs. rewrite Hw. now repeat split.
  - assert (Attendee.id a = Attendee.id found) as Hid.
    { destruct (findIndex_lookup _ _ _ Hfind) as (x & Hx & Hp).
      rewrite Hat in Hx. injection Hx as <-. now apply hasId_eq. }
    rewrite (checkin_saves attendees i a Hat) by (rewrite ?Hid; easy).
    cbn [fst snd Checkin.checkedIn default Checkin.apply].
    unfold Scanlog.POST. cbn [setAttendees scanlogsFile]. rewrite Hlogs.
    cbn [writeJson snd fst]. now repeat split.
Qed.

Lemma manual_checkin_found_witness :
  let tx := Scanner.asciiText in
  let ui := searching " LOVE " in
  let attendees := [bob; adaStored] in
  let w := mkWorld (Content attendees) (Content []) Missing Missing in
  let c := Scanner.mkClock 5 6 7 in
  (Scanner.trimOf tx (Scanner.manualName ui) <> EmptyString
   /\ attendeesFile w = Content attendees
   /\ Forall (fun x => is_Some (Attendee.createdAt x)) attendees
   /\ scanlogsFile w = Content []
   /\ List.find
        (fun x => JS.includes (Scanner.lowerOf tx (Scanner.fullNameOf tx x))
                    (Scanner.lowerOf tx (Scanner.trimOf tx (Scanner.manualName ui))))
        (Attendees.sortBy Attendees.newestFirst attendees) = Some adaStored
   /\ findIndex (Attendee.hasId (Attendee.id adaStored)) attendees = Some 1%nat
   /\ attendees !! 1%nat = Some adaStored)
  /\ (let st := Scanner.handleManualCheckin tx c (ui, w) in
      snd st
      = mkWorld
          (Content (if Attendee.isCheckedIn adaStored then attendees
                    else <[1%nat := Attendee.withCheckIn true (Some (Scanner.atCheckin c))
                                      adaStored]> attendees))
          (Content ([] ++ [Scanlog.newLog (Scanner.atLogId c) (Scanner.atLogStamp c)
                             (Scanner.logBodyOf tx "manual" adaStored)]))
          (leadsFile w) (tokensFile w)
      /\ StronglySorted (notOlder Attendee.createdAt)
           (Attendees.sortBy Attendees.newestFirst attendees)
      /\ Scanner.attendee (fst st) = Scanner.shownOf tx adaStored
      /\ Scanner.scanState (fst st) = Scanner.Found
      /\ Scanner.lastMethod (fst st) = "manual").
Proof.
  intros tx ui attendees w c.
  assert (Forall (fun x => is_Some (Attendee.createdAt x)) attendees) as Hdated
    by (repeat constructor; eexists; reflexivity).
  split; [repeat split; try reflexivity; try discriminate; exact Hdated|].
  exact (manual_checkin_found tx ui w c attendees [] adaStored adaStored 1
           ltac:(discriminate) eq_refl Hdated eq_refl eq_refl eq_refl eq_refl).
Defined.

(** ** Event activation *)

Lemma toLowerCase_empty s : JS.toLowerCase s = EmptyString <-> s = EmptyString.
Proof. destruct s; simpl; split; congruence. Qed.

Lemma find_agree {A} (f g : A -> bool) (l : list A) :
  (forall x, f x = g x) -> List.find f l = List.find g l.
Proof.
  intros Hfg. induction l as [|x l IH]; [reflexivity|]. simpl. now rewrite Hfg, IH.
Qed.

Lemma orElse_some s : JS.orElse (Some s) "" = s.
Proof.
  unfold JS.orElse, JS.truthy. destruct (String.eqb_spec s ""); simpl; congruence.
Qed.

(** X17.  Event activation reads the code up to surrounding white space and
    letter case: two codes that are equal after trimming and lower-casing get
    the same answer, whatever the event file holds. *)
Theorem activation_ignores_case_and_padding (c1 c2 : string) (f : file (list Event.t)) :
  JS.toLowerCase (JS.trim c1) = JS.toLowerCase (JS.trim c2) ->
  Events.activate (Some c1) f = Events.activate (Some c2) f.
Proof.
  intros Hsame. unfold Events.activate. rewrite !orElse_some.
  assert (String.eqb (JS.trim c1) "" = String.eqb (JS.trim c2) "") as ->.
  { destruct (String.eqb_spec (JS.trim c1) "") as [E1|N1],
             (String.eqb_spec (JS.trim c2) "") as [E2|N2]; try reflexivity.
    - rewrite E1 in Hsame. symmetry in Hsame.
      destruct N2. now apply toLowerCase_empty.
    - rewrite E2 in Hsame. destruct N1. now apply toLowerCase_empty. }
  rewrite (find_agree (Events.hasCode (JS.trim c1)) (Events.hasCode (JS.trim c2))).
  - reflexivity.
  - intros evt. unfold Events.hasCode. now rewrite Hsame.
Qed.

Lemma activation_ignores_case_and_padding_witness :
  let f := Content [Event.mk (Some "evt_1") (Some "Expo") (Some "Expo-2025")] in
  JS.toLowerCase (JS.trim " EXPO-2025 ") = JS.toLowerCase (JS.trim "expo-2025")
  /\ Events.activate (Some " EXPO-2025 ") f = Events.activate (Some "expo-2025") f
  /\ Events.activate (Some "expo-2025") f
     = Json 200 (Events.mkActivated (Some "evt_1") (Some "Expo")).
Proof.
  intros f. split; [reflexivity|]. split; [|reflexivity].
  exact (activation_ignores_case_and_padding " EXPO-2025 " "expo-2025" f eq_refl).
Defined.

(** ** Reading the exports back *)

Section Csv.

Lemma append_nil_l (s : string) : "" +:+ s = s.
Proof. reflexivity. Qed.

Ltac unstring := repeat (rewrite append_cons || rewrite append_nil_l).

Lemma append_assoc_s (a b c : string) : (a +:+ b) +:+ c = a +:+ (b +:+ c).
Proof.
  induction a as [|x a IH]; [reflexivity|]. rewrite !append_cons. f_equal. exact IH.
Qed.

Lemma append_nil_r (s : string) : s +:+ "" = s.
Proof. induction s as [|x s IH]; [reflexivity|]. rewrite append_cons. f_equal. exact IH. Qed.

Lemma append_cancel (p a b : string) : p +:+ a = p +:+ b -> a = b.
Proof.
  induction p as [|x p IH]; [easy|]. rewrite !append_cons. intros [= H]. apply IH. exact H.
Qed.

Lemma join_two sep p q ps :
  JS.join sep (p :: q :: ps) = p +:+ sep +:+ JS.join sep (q :: ps).
Proof. reflexivity. Qed.

Lemma join_one sep p : JS.join sep [p] = p.
Proof. reflexivity. Qed.

Lemma doubled_quote v :
  doubled (String JS.dquote v) = String JS.dquote (String JS.dquote (doubled v)).
Proof. reflexivity. Qed.

Lemma doubled_other c v :
  c <> JS.dquote -> doubled (String c v) = String c (doubled v).
Proof.
  intros Hc. unfold doubled. simpl JS.replaceAll.
  destruct (Ascii.eqb_spec c JS.dquote) as [E|_]; [now destruct Hc|reflexivity].
Qed.

Lemma doubled_readable v1 :
  forall v2 r1 r2, noQuote r1 -> noQuote r2 ->
    doubled v1 +:+ String JS.dquote r1 = doubled v2 +:+ String JS.dquote r2 ->
    v1 = v2 /\ r1 = r2.
Proof.
  induction v1 as [|c1 v1 IH]; intros [|c2 v2] r1 r2 H1 H2.
  - unfold doubled. simpl JS.replaceAll. unstring. now intros [= ->].
  - destruct (Ascii.eqb_spec c2 JS.dquote) as [->|N2].
    + rewrite doubled_quote. unstring. intros [= E]. subst r1. now destruct H1.
    + rewrite (doubled_other _ _ N2). unstring. intros [= E _]. now destruct N2.
  - destruct (Ascii.eqb_spec c1 JS.dquote) as [->|N1].
    + rewrite doubled_quote. unstring. intros [= E]. subst r2. now destruct H2.
    + rewrite (doubled_other _ _ N1). unstring. intros [= E _]. now destruct N1.
  - destruct (Ascii.eqb_spec c1 JS.dquote) as [->|N1],
             (Ascii.eqb_spec c2 JS.dquote) as [->|N2].
    + rewrite !doubled_quote. unstring. intros [= E].
      destruct (IH _ _ _ H1 H2 E) as [-> ->]. easy.
    + rewrite doubled_quote, (doubled_other _ _ N2). unstring. intros [= E _].
      now destruct N2.
    + rewrite doubled_quote, (doubled_other _ _ N1). unstring. intros [= E _].
      now destruct N1.
    + rewrite (doubled_other _ _ N1), (doubled_other _ _ N2). unstring. intros [= -> E].
      destruct (IH _ _ _ H1 H2 E) as [-> ->]. easy.
Qed.

Lemma afterCell_noQuote r : afterCell r -> noQuote r.
Proof. destruct r as [|c r]; [easy|]. simpl. intros [->| ->]; discriminate. Qed.

Lemma afterRow_afterCell r : afterRow r -> afterCell r.
Proof. destruct r as [|c r]; [easy|]. simpl. now right. Qed.

(** The encoding that always quotes can be read back. *)
Lemma cell_readable : Readable Scanlog.cell.
Proof.
  intros v1 v2 r1 r2 H1%afterCell_noQuote H2%afterCell_noQuote.
  unfold Scanlog.cell. fold (doubled v1) (doubled v2).
  rewrite !append_assoc_s. unstring. intros [= E].
  now apply doubled_readable.
Qed.

Variable enc : string -> string.
Hypothesis enc_readable : Readable enc.

Lemma row_readable vs1 :
  forall vs2 r1 r2, vs1 <> [] -> vs2 <> [] -> afterRow r1 -> afterRow r2 ->
    JS.join "," (enc <$> vs1) +:+ r1 = JS.join "," (enc <$> vs2) +:+ r2 ->
    vs1 = vs2 /\ r1 = r2.
Proof.
  induction vs1 as [|v1 vs1 IH]; [easy|].
  intros [|v2 vs2] r1 r2 _ Hne H1 H2; [easy|].
  destruct vs1 as [|w1 vs1], vs2 as [|w2 vs2]; rewrite ?fmap_cons, ?join_two, ?fmap_nil, ?join_one.
  - intros E. apply enc_readable in E; try now apply afterRow_afterCell.
    now destruct E as [-> ->].
  - rewrite !append_assoc_s. intros E. apply enc_readable in E.
    + destruct E as [_ ->]. simpl in H1. discriminate.
    + now apply afterRow_afterCell.
    + simpl. now left.
  - rewrite !append_assoc_s. intros E. apply enc_readable in E.
    + destruct E as [_ <-]. simpl in H2. discriminate.
    + simpl. now left.
    + now apply afterRow_afterCell.
  - rewrite !append_assoc_s. intros E. apply enc_readable in E; [|simpl; now left..].
    destruct E as [-> E]. rewrite !append_cons, !append_nil_l in E. injection E as E.
    change (enc w1 :: (enc <$> vs1)) with (enc <$> (w1 :: vs1)) in E.
    change (enc w2 :: (enc <$> vs2)) with (enc <$> (w2 :: vs2)) in E.
    destruct (IH (w2 :: vs2) r1 r2) as [Hvs ->]; try easy.
    now rewrite Hvs.
Qed.

Lemma wide_not_nil vs : wide vs -> vs <> [].
Proof. destruct vs; unfold wide; simpl; [lia|easy]. Qed.

Lemma wide_not_empty vs r : wide vs -> JS.join "," (enc <$> vs) +:+ r <> EmptyString.
Proof.
  destruct vs as [|v [|w vs]]; unfold wide; simpl length; try lia. intros _.
  rewrite !fmap_cons, join_two, !append_assoc_s. rewrite append_cons.
  destruct (enc v); [rewrite append_nil_l|rewrite append_cons]; discriminate.
Qed.

Lemma rows_readable (t1 : list (list string)) :
  forall t2, Forall wide t1 -> Forall wide t2 ->
    JS.join Scanlog.newline ((fun vs => JS.join "," (enc <$> vs)) <$> t1)
    = JS.join Scanlog.newline ((fun vs => JS.join "," (enc <$> vs)) <$> t2) ->
    t1 = t2.
Proof.
  induction t1 as [|vs1 t1 IH]; intros [|vs2 t2] W1 W2.
  - easy.
  - inversion W2 as [|? ? Wv _]; subst. rewrite fmap_cons. intros E. exfalso.
    destruct t2 as [|vs3 t2]; rewrite ?fmap_cons, ?join_two, ?fmap_nil, ?join_one in E.
    + symmetry in E. rewrite <- (append_nil_r (JS.join _ _)) in E.
      now apply wide_not_empty in E.
    + symmetry in E. now apply wide_not_empty in E.
  - inversion W1 as [|? ? Wv _]; subst. rewrite fmap_cons. intros E. exfalso.
    destruct t1 as [|vs3 t1]; rewrite ?fmap_cons, ?join_two, ?fmap_nil, ?join_one in E.
    + rewrite <- (append_nil_r (JS.join _ _)) in E. now apply wide_not_empty in E.
    + now apply wide_not_empty in E.
  - inversion W1 as [|? ? Wv1 W1']; inversion W2 as [|? ? Wv2 W2']; subst.
    destruct t1 as [|vs3 t1], t2 as [|vs4 t2];
      rewrite ?fmap_cons, ?join_two, ?fmap_nil, ?join_one.
    + intros E. rewrite <- (append_nil_r (JS.join _ (enc <$> vs1))) in E.
      rewrite <- (append_nil_r (JS.join _ (enc <$> vs2))) in E.
      apply row_readable in E;
        [now destruct E as [-> _]|try easy; try now apply wide_not_nil..].
    + intros E. rewrite <- (append_nil_r (JS.join _ (enc <$> vs1))) in E.
      apply row_readable in E;
        [destruct E as [_ E]; discriminate|try easy; try now apply wide_not_nil..].
    + intros E. rewrite <- (append_nil_r (JS.join _ (enc <$> vs2))) in E.
      apply row_readable in E;
        [destruct E as [_ E]; discriminate|try easy; try now apply wide_not_nil..].
    + intros E. apply row_readable in E;
        [|try easy; try now apply wide_not_nil..].
      destruct E as [-> E]. unfold Scanlog.newline in E.
      rewrite !append_cons, !append_nil_l in E. injection E as E.
      f_equal. apply IH; [easy..|]. rewrite !fmap_cons. exact E.
Qed.

(** A header line and the rows under it. *)
Lemma table_readable (header : string) (t1 t2 : list (list string)) :
  Forall wide t1 -> Forall wide t2 ->
  JS.join Scanlog.newline (header :: ((fun vs => JS.join "," (enc <$> vs)) <$> t1))
  = JS.join Scanlog.newline (header :: ((fun vs => JS.join "," (enc <$> vs)) <$> t2)) ->
  t1 = t2.
Proof.
  intros W1 W2.
  destruct t1 as [|vs1 t1], t2 as [|vs2 t2];
    rewrite ?fmap_cons, ?join_two, ?fmap_nil, ?join_one.
  - easy.
  - intros E. rewrite <- (append_nil_r header) in E at 1.
    apply append_cancel in E. discriminate.
  - intros E. rewrite <- (append_nil_r header) in E at 2.
    apply append_cancel in E. discriminate.
  - intros E. apply append_cancel, append_cancel in E.
    apply rows_readable; [easy..|]. rewrite !fmap_cons. exact E.
Qed.

End Csv.

Lemma values_wide toISOString (logs : list ScanLog.t) :
  Forall wide (Scanlog.values toISOString <$> logs).
Proof. apply Forall_fmap, Forall_forall. intros l _. unfold wide. simpl. lia. Qed.

Lemma lines_rows toISOString (logs : list ScanLog.t) :
  Scanlog.lines toISOString logs
  = JS.join "," Scanlog.headers
    :: ((fun vs => JS.join "," (Scanlog.cell <$> vs)) <$> (Scanlog.values toISOString <$> logs)).
Proof. unfold Scanlog.lines. f_equal. now rewrite <- list_fmap_compose. Qed.

(** X18.  The scan-log export loses none of the five exported values: two
    scan logs whose exports are the same text have the same values, row by
    row and cell by cell, whatever commas, quotes or line feeds the values
    hold. *)
Theorem export_csv_lossless (toISOString : Z -> string) (w1 w2 : World) :
  Scanlog.export toISOString w1 = Scanlog.export toISOString w2 ->
  Scanlog.values toISOString <$> Scanlog.readLogs (scanlogsFile w1)
  = Scanlog.values toISOString <$> Scanlog.readLogs (scanlogsFile w2).
Proof.
  unfold Scanlog.export. rewrite !lines_rows. intros [= E].
  apply (table_readable Scanlog.cell cell_readable) in E;
    [exact E|apply values_wide..].
Qed.

Lemma export_csv_lossless_witness :
  let quoted := ScanLog.mk (Some 6%Z) (Some "17,5") (Some obrien) None (Some "scan") None in
  let manual := ScanLog.mk (Some 6%Z) (Some "17,5") (Some obrien) (Some "") (Some "manual") None in
  let w1 := mkWorld Missing (Content [quoted; quoted]) Missing Missing in
  let w2 := mkWorld Missing (Content [manual; manual]) Missing Missing in
  Scanlog.export JS.ofNumber w1 = Scanlog.export JS.ofNumber w2
  /\ Scanlog.values JS.ofNumber <$> Scanlog.readLogs (scanlogsFile w1)
     = Scanlog.values JS.ofNumber <$> Scanlog.readLogs (scanlogsFile w2).
Proof.
  intros quoted manual w1 w2. split; [reflexivity|].
  exact (export_csv_lossless JS.ofNumber w1 w2 eq_refl).
Defined.

Lemma loadLogs_perm w :
  Permutation (AnalyticsPage.loadLogs w) (Scanlog.readLogs (scanlogsFile w)).
Proof.
  unfold AnalyticsPage.loadLogs, Scanlog.GET, Scanlog.readLogs.
  destruct (scanlogsFile w); simpl; try constructor. apply sortBy_perm.
Qed.

(** X19.  The analytics page downloads what the server export would answer
    for the list the page holds: its logs are the stored ones, reordered, and
    for a non-empty list the text is the header line and the rows of the
    export of that list; with no log to show (none stored, or a file that is
    missing or cannot be read) nothing is downloaded. *)
Theorem analytics_download_matches_export (toISOString : Z -> string) (w : World) :
  let shown := AnalyticsPage.loadLogs w in
  Permutation shown (Scanlog.readLogs (scanlogsFile w))
  /\ AnalyticsPage.handleDownloadCsv toISOString shown
     = match Scanlog.readLogs (scanlogsFile w) with
       | [] => None
       | _ => match Scanlog.export toISOString (setScanlogs (Content shown) w) with
              | Json _ text => Some text
              | Fail _ _ => None
              end
       end.
Proof.
  intros shown. split; [apply loadLogs_perm|].
  pose proof (loadLogs_perm w) as Hperm. fold shown in Hperm.
  destruct (Scanlog.readLogs (scanlogsFile w)) as [|l ls].
  - apply Permutation_sym, Permutation_nil in Hperm. now rewrite Hperm.
  - destruct shown as [|s ss]; [now apply Permutation_nil in Hperm|]. reflexivity.
Qed.

(** ** The portal's CSV, which quotes only where needed *)

Section Portal.

Lemma includes_char c d r :
  JS.includes (String d r) (String c EmptyString)
  = Ascii.eqb d c || JS.includes r (String c EmptyString).
Proof.
  change (JS.includes (String d r) (String c EmptyString))
    with (String.prefix (String c EmptyString) (String d r)
          || JS.includes r (String c EmptyString)).
  f_equal. rewrite prefix_cons.
  destruct (ascii_dec c d) as [<-|Hne].
  - rewrite Ascii.eqb_refl. now destruct r.
  - symmetry. apply Ascii.eqb_neq. intros ->. now apply Hne.
Qed.

Lemma raw_head c v :
  PortalPage.needsQuotes (String c v) = false ->
  c <> ","%char /\ c <> JS.dquote /\ c <> ascii_of_nat 10
  /\ PortalPage.needsQuotes v = false.
Proof.
  unfold PortalPage.needsQuotes, JS.dq, Scanlog.newline. rewrite !includes_char.
  intros H. apply orb_false_elim in H as [H HL]. apply orb_false_elim in H as [HC HQ].
  apply orb_false_elim in HC as [HC1 HC2]. apply orb_false_elim in HQ as [HQ1 HQ2].
  apply orb_false_elim in HL as [HL1 HL2].
  apply Ascii.eqb_neq in HC1, HQ1, HL1. rewrite HC2, HQ2, HL2. easy.
Qed.

Lemma raw_readable v1 :
  forall v2 r1 r2,
    PortalPage.needsQuotes v1 = false -> PortalPage.needsQuotes v2 = false ->
    afterCell r1 -> afterCell r2 ->
    v1 +:+ r1 = v2 +:+ r2 -> v1 = v2 /\ r1 = r2.
Proof.
  induction v1 as [|c1 v1 IH]; intros [|c2 v2] r1 r2 N1 N2 H1 H2;
    rewrite ?append_cons, ?append_nil_l.
  - easy.
  - intros ->. apply raw_head in N2 as (? & ? & ? & _). simpl in H1. now destruct H1.
  - intros <-. apply raw_head in N1 as (? & ? & ? & _). simpl in H2. now destruct H2.
  - intros [= -> E]. apply raw_head in N1 as (_ & _ & _ & N1).
    apply raw_head in N2 as (_ & _ & _ & N2).
    destruct (IH _ _ _ N1 N2 H1 H2 E) as [-> ->]. easy.
Qed.

Lemma quoted_not_raw v1 v2 r1 r2 :
  PortalPage.needsQuotes v2 = false -> afterCell r2 ->
  Scanlog.cell v1 +:+ r1 <> v2 +:+ r2.
Proof.
  intros N2 H2. unfold Scanlog.cell, JS.dq. rewrite !append_cons, !append_nil_l.
  destruct v2 as [|c2 v2]; rewrite ?append_cons, ?append_nil_l.
  - intros <-. simpl in H2. destruct H2; discriminate.
  - intros [= <- _]. now apply raw_head in N2 as (_ & ? & _).
Qed.

Lemma escape_readable : Readable PortalPage.escape.
Proof.
  intros v1 v2 r1 r2 H1 H2. unfold PortalPage.escape.
  destruct (PortalPage.needsQuotes v1) eqn:N1, (PortalPage.needsQuotes v2) eqn:N2.
  - apply cell_readable; assumption.
  - intros E. now apply quoted_not_raw in E.
  - intros E. symmetry in E. now apply quoted_not_raw in E.
  - now apply raw_readable.
Qed.

End Portal.

Lemma portal_rows toISOString (rows : list Lead.t) :
  PortalPage.line toISOString <$> rows
  = (fun vs => JS.join "," (PortalPage.escape <$> vs))
      <$> (PortalPage.values toISOString <$> rows).
Proof. now rewrite <- list_fmap_compose. Qed.

(** X20.  The exhibitor portal quotes a cell only when it holds a comma, a
    double quote or a line feed, and still loses none of the eight exported
    values: two lead lists with the same CSV text have the same values, row by
    row and cell by cell. *)
Theorem portal_csv_lossless (toISOString : Z -> string) (rows1 rows2 : list Lead.t) :
  PortalPage.toCsv toISOString rows1 = PortalPage.toCsv toISOString rows2 ->
  PortalPage.values toISOString <$> rows1 = PortalPage.values toISOString <$> rows2.
Proof.
  unfold PortalPage.toCsv. rewrite !portal_rows. intros E.
  apply (table_readable PortalPage.escape escape_readable) in E; [exact E|..];
    apply Forall_fmap, Forall_forall; intros l _; unfold wide; simpl; lia.
Qed.

Lemma portal_csv_lossless_witness :
  let lead notes :=
    Lead.mk (Some 2000%Z) (Some "evt_demo_001") (Some "17") (Some obrien)
      (Some "a,b@x.com") (Some "Booth 9") notes (Some 2001%Z) in
  PortalPage.toCsv JS.ofNumber [lead None; lead (Some "")]
  = PortalPage.toCsv JS.ofNumber [lead (Some ""); lead None]
  /\ PortalPage.values JS.ofNumber <$> [lead None; lead (Some "")]
     = PortalPage.values JS.ofNumber <$> [lead (Some ""); lead None].
Proof.
  intros lead. split; [reflexivity|].
  exact (portal_csv_lossless JS.ofNumber [lead None; lead (Some "")]
           [lead (Some ""); lead None] eq_refl).
Defined.

(** ** The check-in export of the admin page *)

Section LatestScan.

Lemma latest_snoc logs x :
  CheckInPage.latestScanById (logs ++ [x])
  = CheckInPage.noteScan (CheckInPage.latestScanById logs) x.
Proof. unfold CheckInPage.latestScanById. now rewrite foldl_app. Qed.

Lemma noteScan_other m x id :
  CheckInPage.logKey x <> id -> CheckInPage.noteScan m x !! id = m !! id.
Proof.
  intros Hne. unfold CheckInPage.noteScan.
  destruct (m !! CheckInPage.logKey x) as [[e|]|];
    [destruct (ScanLog.timestamp x) as [t|]; [destruct (e <? t)%Z|]|..];
    try reflexivity; now apply lookup_insert_ne.
Qed.

(** What the map holds for an id after the logs have been noted. *)
Lemma latest_spec logs id :
  match CheckInPage.latestScanById logs !! id with
  | None => forall l, In l logs -> CheckInPage.logKey l <> id
  | Some None =>
      (exists l, In l logs /\ CheckInPage.logKey l = id)
      /\ (forall l, In l logs -> CheckInPage.logKey l = id -> ScanLog.timestamp l = None)
  | Some (Some t) => LatestOf id logs t
  end.
Proof.
  induction logs as [|x logs IH] using rev_ind.
  - unfold CheckInPage.latestScanById. simpl. rewrite lookup_empty. easy.
  - rewrite latest_snoc.
    destruct (String.eqb_spec (CheckInPage.logKey x) id) as [Hk|Hk].
    2:{ rewrite (noteScan_other _ _ _ Hk).
        destruct (CheckInPage.latestScanById logs !! id) as [[t|]|].
        - destruct IH as [(l & Hin & Hl & Ht) Hmax]. split.
          + exists l. rewrite in_app_iff. auto.
          + intros l' t' [Hin'|[<-|[]]]%in_app_iff Hl' Ht'; [eauto|easy].
        - destruct IH as [(l & Hin & Hl) Hall]. split.
          + exists l. rewrite in_app_iff. auto.
          + intros l' [Hin'|[<-|[]]]%in_app_iff Hl'; [eauto|easy].
        - intros l' [Hin'|[<-|[]]]%in_app_iff; [eauto|easy]. }
    unfold CheckInPage.noteScan. rewrite Hk.
    destruct (CheckInPage.latestScanById logs !! id) as [[e|]|] eqn:Hm.
    + destruct IH as [(l & Hin & Hl & Ht) Hmax].
      destruct (ScanLog.timestamp x) as [t|] eqn:Hx.
      * destruct (Z.ltb_spec e t) as [Hlt|Hge].
        -- rewrite lookup_insert_eq. split.
           ++ exists x. rewrite in_app_iff. simpl. auto.
           ++ intros l' t' [Hin'|[<-|[]]]%in_app_iff Hl' Ht'.
              ** specialize (Hmax _ _ Hin' Hl' Ht'). lia.
              ** rewrite Hx in Ht'. injection Ht' as <-. lia.
        -- rewrite Hm. split.
           ++ exists l. rewrite in_app_iff. auto.
           ++ intros l' t' [Hin'|[<-|[]]]%in_app_iff Hl' Ht'; [eauto|].
              rewrite Hx in Ht'. injection Ht' as <-. lia.
      * rewrite Hm. split.
        -- exists l. rewrite in_app_iff. auto.
        -- intros l' t' [Hin'|[<-|[]]]%in_app_iff Hl' Ht'; [eauto|congruence].
    + destruct IH as [(l & Hin & Hl) Hall]. rewrite lookup_insert_eq.
      destruct (ScanLog.timestamp x) as [t|] eqn:Hx.
      * split.
        -- exists x. rewrite in_app_iff. simpl. auto.
        -- intros l' t' [Hin'|[<-|[]]]%in_app_iff Hl' Ht'.
           ++ rewrite (Hall _ Hin' Hl') in Ht'. discriminate.
           ++ rewrite Hx in Ht'. injection Ht' as <-. lia.
      * split.
        -- exists x. rewrite in_app_iff. simpl. auto.
        -- intros l' [Hin'|[<-|[]]]%in_app_iff Hl'; [eauto|easy].
    + rewrite lookup_insert_eq.
      destruct (ScanLog.timestamp x) as [t|] eqn:Hx.
      * split.
        -- exists x. rewrite in_app_iff. simpl. auto.
        -- intros l' t' [Hin'|[<-|[]]]%in_app_iff Hl' Ht'.
           ++ now destruct (IH _ Hin').
           ++ rewrite Hx in Ht'. injection Ht' as <-. lia.
      * split.
        -- exists x. rewrite in_app_iff. simpl. auto.
        -- intros l' [Hin'|[<-|[]]]%in_app_iff Hl'; [|easy]. now destruct (IH _ Hin').
Qed.

Lemma LatestOf_unique id logs t t' : LatestOf id logs t -> LatestOf id logs t' -> t = t'.
Proof.
  intros [(l & Hin & Hl & Ht) Hmax] [(l' & Hin' & Hl' & Ht') Hmax'].
  specialize (Hmax _ _ Hin' Hl' Ht'). specialize (Hmax' _ _ Hin Hl Ht). lia.
Qed.

End LatestScan.

(** X21.  The last scan the check-in export shows for an attendee is the
    latest instant among the scan-log entries of that attendee's id, whatever
    their order and method; it is empty exactly when no entry of the id has an
    instant. *)
Theorem last_scan_is_latest (logs : list ScanLog.t) (a : Attendee.t) :
  (forall t, CheckInPage.lastScan (CheckInPage.latestScanById logs) a = Some t
             <-> LatestOf (Attendee.id a) logs t)
  /\ (CheckInPage.lastScan (CheckInPage.latestScanById logs) a = None
      <-> forall l, In l logs -> CheckInPage.logKey l = Attendee.id a ->
                    ScanLog.timestamp l = None).
Proof.
  pose proof (latest_spec logs (Attendee.id a)) as Hspec.
  unfold CheckInPage.lastScan.
  destruct (CheckInPage.latestScanById logs !! Attendee.id a) as [[e|]|]; simpl.
  - split.
    + intros t. split; [now intros [= <-]|].
      intros Ht. f_equal. exact (LatestOf_unique _ _ _ _ Hspec Ht).
    + split; [easy|]. intros Hnone. destruct Hspec as [(l & Hin & Hl & Ht) _].
      rewrite (Hnone _ Hin Hl) in Ht. discriminate.
  - destruct Hspec as [_ Hall]. split.
    + intros t. split; [easy|]. intros [(l & Hin & Hl & Ht) _].
      rewrite (Hall _ Hin Hl) in Ht. discriminate.
    + easy.
  - split.
    + intros t. split; [easy|]. intros [(l & Hin & Hl & _) _]. now destruct (Hspec _ Hin).
    + split; [|easy]. intros _ l Hin Hl. now destruct (Hspec _ Hin).
Qed.

Lemma isScanned_spec logs a :
  AdminPage.isScanned logs a = true
  <-> exists l, In l logs /\ CheckInPage.logKey l = Attendee.id a.
Proof.
  unfold AdminPage.isScanned, AdminPage.scannedIds. rewrite existsb_exists. split.
  - intros (k & Hin & Hk%String.eqb_eq). apply in_map_iff in Hin as (l & <- & Hin).
    now exists l.
  - intros (l & Hin & Hl). exists (CheckInPage.logKey l). split.
    + apply in_map_iff. now exists l.
    + now apply String.eqb_eq.
Qed.

(** X22.  When every scan-log entry has its instant, as every entry the
    scan-log endpoint writes has, the ScannedViaQr cell of the check-in export
    says Yes exactly for the attendees that the dashboard counts as scanned:
    those with an entry of their id, manual check-ins included. *)
Theorem export_scanned_matches_dashboard
    (toISOString : Z -> string) (logs : list ScanLog.t) (a : Attendee.t) :
  (forall l, In l logs -> ScanLog.timestamp l <> None) ->
  nth 6 (CheckInPage.cells toISOString (CheckInPage.latestScanById logs) a) ""
  = CheckInPage.yesNo (AdminPage.isScanned logs a).
Proof.
  intros Hstamped. simpl nth. f_equal.
  pose proof (latest_spec logs (Attendee.id a)) as Hspec.
  unfold CheckInPage.lastScan.
  destruct (AdminPage.isScanned logs a) eqn:Hs.
  - apply isScanned_spec in Hs as (l & Hin & Hl).
    destruct (CheckInPage.latestScanById logs !! Attendee.id a) as [[e|]|]; simpl.
    + reflexivity.
    + destruct Hspec as [_ Hall]. now destruct (Hstamped _ Hin (Hall _ Hin Hl)).
    + now destruct (Hspec _ Hin).
  - apply bool_decide_eq_false. intros [t Ht].
    destruct (CheckInPage.latestScanById logs !! Attendee.id a) as [[e|]|];
      simpl in Ht; try discriminate.
    destruct Hspec as [(l & Hin & Hl & _) _].
    assert (AdminPage.isScanned logs a = true) as Hyes
      by (apply isScanned_spec; eauto).
    congruence.
Qed.

Lemma export_scanned_matches_dashboard_witness :
  let logs :=
    [ Scanlog.newLog 6 7 (Scanner.logBody "manual" adaStored);
      Scanlog.newLog 8 9 (Scanner.logBody "scan" bob) ] in
  (forall l, In l logs -> ScanLog.timestamp l <> None)
  /\ nth 6 (CheckInPage.cells JS.ofNumber (CheckInPage.latestScanById logs) adaStored) ""
     = CheckInPage.yesNo (AdminPage.isScanned logs adaStored)
  /\ AdminPage.isScanned logs adaStored = true.
Proof.
  intros logs.
  assert (forall l, In l logs -> ScanLog.timestamp l <> None) as Hstamped.
  { intros l [<-|[<-|[]]]; discriminate. }
  split; [exact Hstamped|]. split; [|reflexivity].
  exact (export_scanned_matches_dashboard JS.ofNumber logs adaStored Hstamped).
Defined.

(** Without its instant an entry counts on the dashboard and not in the export. *)
Example scanned_without_instant :
  let logs := [ScanLog.mk (Some 6%Z) (Some "1700000000000") None None (Some "scan") None] in
  AdminPage.isScanned logs adaStored = true
  /\ nth 6 (CheckInPage.cells JS.ofNumber (CheckInPage.latestScanById logs) adaStored) ""
     = "No".
Proof. split; reflexivity. Qed.

(** ** The exhibitor roster *)

Section RosterFacts.





End RosterFacts.




Section ActivationCode.

Lemma slice_cons n c s :
  String.substring 0 (S n) (String c s) = String c (String.substring 0 n s).
Proof. reflexivity. Qed.

Lemma slice_allChars p n s :
  allChars p s = true -> allChars p (String.substring 0 n s) = true.
Proof.
  revert n. induction s as [|c s IH]; intros [|n]; try easy.
  rewrite slice_cons. simpl. intros [-> Hs]%andb_prop. simpl. now apply IH.
Qed.

Lemma slice_length n s :
  String.length (String.substring 0 n s) = Nat.min n (String.length s).
Proof.
  revert n. induction s as [|c s IH]; intros [|n]; try easy.
  rewrite slice_cons. simpl. now rewrite IH.
Qed.

Lemma keepCodeChars_code s : allChars Roster.isCodeChar (Roster.keepCodeChars s) = true.
Proof.
  induction s as [|c s IH]; [reflexivity|]. simpl.
  destruct (Roster.isCodeChar c) eqn:Hc; [|exact IH]. simpl. now rewrite Hc.
Qed.

Lemma base_code name :
  allChars Roster.isCodeChar (Roster.base name) = true /\ Roster.base name <> EmptyString.
Proof.
  unfold Roster.base.
  destruct (String.eqb_spec (Roster.keepCodeChars (Roster.toUpperCase (JS.trim name))) "")
    as [E|N].
  - split; [reflexivity|discriminate].
  - split; [apply keepCodeChars_code|exact N].
Qed.

Lemma upperChar_lowerChar c : Roster.upperChar (JS.lowerChar c) = Roster.upperChar c.
Proof. destruct c as [[] [] [] [] [] [] [] []]; reflexivity. Qed.

Lemma toUpperCase_toLowerCase s :
  Roster.toUpperCase (JS.toLowerCase s) = Roster.toUpperCase s.
Proof.
  induction s as [|c s IH]; [reflexivity|]. simpl. now rewrite upperChar_lowerChar, IH.
Qed.

Lemma base_toLowerCase name : Roster.base (JS.toLowerCase name) = Roster.base name.
Proof. unfold Roster.base. now rewrite trim_toLowerCase, toUpperCase_toLowerCase. Qed.

End ActivationCode.

(** X24.  For a name of ASCII characters, where the case mappings of this
    file are those of the runtime, an activation code is a prefix, a dash and
    the upper-cased first six digits of the digest of the cleaned name: the
    prefix has one to six characters, all capital letters or digits, and the
    code does not change when the name is lower-cased. *)
Theorem activation_code_shape (sha256Hex : string -> string) (name : string) :
  isAscii name = true ->
  exists prefix,
    Roster.makeActivationCode sha256Hex name
    = prefix +:+ "-" +:+ Roster.toUpperCase (Roster.slice6 (sha256Hex (Roster.base name)))
    /\ (1 <= String.length prefix <= 6)%nat
    /\ allChars Roster.isCodeChar prefix = true
    /\ Roster.makeActivationCode sha256Hex (JS.toLowerCase name)
       = Roster.makeActivationCode sha256Hex name.
Proof.
  intros _.
  exists (Roster.slice6 (Roster.base name)).
  destruct (base_code name) as [Hcode Hne].
  split; [reflexivity|]. split; [|split].
  - unfold Roster.slice6. rewrite slice_length.
    assert (1 <= String.length (Roster.base name))%nat
      by (destruct (Roster.base name); [easy|simpl; lia]).
    lia.
  - now apply slice_allChars.
  - unfold Roster.makeActivationCode. now rewrite base_toLowerCase.
Qed.

Lemma activation_code_shape_witness :
  let sha := fun _ : string => "9f86d081884c7d65" in
  let name := " Acme & Sons, Inc. " in
  isAscii name = true
  /\ (exists prefix,
        Roster.makeActivationCode sha name
        = prefix +:+ "-" +:+ Roster.toUpperCase (Roster.slice6 (sha (Roster.base name)))
        /\ (1 <= String.length prefix <= 6)%nat
        /\ allChars Roster.isCodeChar prefix = true
        /\ Roster.makeActivationCode sha (JS.toLowerCase name)
           = Roster.makeActivationCode sha name)
  /\ Roster.makeActivationCode sha name = "ACMESO-9F86D0".
Proof.
  intros sha name. split; [reflexivity|]. split; [|reflexivity].
  exact (activation_code_shape sha name eq_refl).
Defined.

Example activation_code_sample :
  Roster.makeActivationCode (fun s => "9f86d081884c7d65") " Acme & Sons, Inc. "
  = "ACMESO-9F86D0"
  /\ Roster.makeActivationCode (fun s => "9f86d081884c7d65") "!!" = "EXHIBI-9F86D0".
Proof. split; reflexivity. Qed.




(** ** The dashboard of the admin page *)

(** X26.  The totals of the dashboard add up: the attendees counted as not
    checked in are exactly those of the event and company selection that are
    not checked in (the clamp at zero never applies), checked in and not
    checked in together are all registrants, and neither the scanned attendees
    nor the registrants outnumber what they are selected from. *)
Theorem dashboard_totals
    (fl : AdminPage.Filters) (attendees : list Attendee.t) (scanLogs : list ScanLog.t) :
  AdminPage.totalNotCheckedIn fl attendees
  = Z.of_nat (length (List.filter (fun a => negb (Attendee.isCheckedIn a))
                        (AdminPage.baseFiltered fl attendees)))
  /\ (AdminPage.totalCheckedIn fl attendees + AdminPage.totalNotCheckedIn fl attendees
      = AdminPage.totalRegistrants fl attendees)%Z
  /\ (0 <= AdminPage.totalScannedViaQr fl attendees scanLogs
      <= AdminPage.totalRegistrants fl attendees)%Z
  /\ (AdminPage.totalRegistrants fl attendees <= Z.of_nat (length attendees))%Z.
Proof.
  unfold AdminPage.totalNotCheckedIn, AdminPage.totalCheckedIn, AdminPage.totalRegistrants,
    AdminPage.totalScannedViaQr.
  pose proof (filter_length Attendee.isCheckedIn (AdminPage.baseFiltered fl attendees)).
  pose proof (filter_length_le (AdminPage.isScanned scanLogs)
                (AdminPage.baseFiltered fl attendees)).
  pose proof (filter_length_le (fun a => AdminPage.matchesEvent fl a
                                         && AdminPage.matchesCompany fl a) attendees).
  fold (AdminPage.baseFiltered fl attendees) in *. lia.
Qed.

Lemma filter_split {A} (p q : A -> bool) (l : list A) :
  Permutation (List.filter p l)
    (List.filter (fun a => p a && q a) l ++ List.filter (fun a => p a && negb (q a)) l).
Proof.
  induction l as [|x l IH]; [constructor|]. simpl.
  destruct (p x), (q x); simpl; try exact IH.
  - now constructor.
  - now apply Permutation_cons_app.
Qed.

Lemma filter_agree {A} (p q : A -> bool) (l : list A) :
  (forall a, p a = q a) -> List.filter p l = List.filter q l.
Proof.
  intros Hpq. induction l as [|x l IH]; [reflexivity|]. simpl. now rewrite Hpq, IH.
Qed.

Lemma filtered_as search status eventFilter companyFilter attendees
    (test : Attendee.t -> bool) :
  (forall a, AdminPage.matchesStatus
               (AdminPage.mkFilters search status eventFilter companyFilter) a = test a) ->
  AdminPage.filteredAttendees
    (AdminPage.mkFilters search status eventFilter companyFilter) attendees
  = List.filter
      (fun a => AdminPage.matchesSearch
                  (AdminPage.mkFilters search "all" eventFilter companyFilter) a && test a)
      (AdminPage.baseFiltered
         (AdminPage.mkFilters search "all" eventFilter companyFilter) attendees).
Proof.
  intros Htest. unfold AdminPage.filteredAttendees.
  change (AdminPage.baseFiltered
            (AdminPage.mkFilters search status eventFilter companyFilter) attendees)
    with (AdminPage.baseFiltered
            (AdminPage.mkFilters search "all" eventFilter companyFilter) attendees).
  apply filter_agree. intros a. now rewrite Htest.
Qed.

(** X27.  The status filter splits the attendees that pass the search and the
    event and company selection: every one shown under all is shown under
    exactly one of checked in and not checked in, where all shown are checked
    in, respectively not. *)
Theorem status_filter_partitions
    (search eventFilter companyFilter : string) (attendees : list Attendee.t) :
  let shown status :=
    AdminPage.filteredAttendees
      (AdminPage.mkFilters search status eventFilter companyFilter) attendees in
  Permutation (shown "all") (shown "checkedIn" ++ shown "notCheckedIn")
  /\ Forall (fun a => Attendee.isCheckedIn a = true) (shown "checkedIn")
  /\ Forall (fun a => Attendee.isCheckedIn a = false) (shown "notCheckedIn").
Proof.
  intros shown. subst shown. cbv beta.
  rewrite (filtered_as search "all" _ _ attendees (fun _ => true)) by easy.
  rewrite (filtered_as search "checkedIn" _ _ attendees Attendee.isCheckedIn)
    by (intros a; unfold AdminPage.matchesStatus; simpl; now destruct (Attendee.isCheckedIn a)).
  rewrite (filtered_as search "notCheckedIn" _ _ attendees
             (fun a => negb (Attendee.isCheckedIn a)))
    by (intros a; unfold AdminPage.matchesStatus; simpl; now destruct (Attendee.isCheckedIn a)).
  split; [|split].
  - rewrite (filter_agree (fun a => _ && true) _ _ (fun a => andb_true_r _)).
    apply filter_split.
  - apply Forall_forall. intros a Ha%list_elem_of_In. apply filter_In in Ha as [_ Ha].
    now apply andb_prop in Ha as [_ Ha].
  - apply Forall_forall. intros a Ha%list_elem_of_In. apply filter_In in Ha as [_ Ha].
    apply andb_prop in Ha as [_ Ha]. now apply negb_true_iff in Ha.
Qed.

Example status_filter_sample :
  let fl status := AdminPage.mkFilters " LOVE" status "all" "all" in
  AdminPage.filteredAttendees (fl "all") [bob; adaStored; adaCheckedIn]
  = [adaStored; adaCheckedIn]
  /\ AdminPage.filteredAttendees (fl "checkedIn") [bob; adaStored; adaCheckedIn]
     = [adaCheckedIn]
  /\ AdminPage.filteredAttendees (fl "other") [bob; adaStored; adaCheckedIn] = [].
Proof. repeat split. Qed.

(** ** The registration page *)

(** X28.  What the registration page shows agrees with the attendee file: it
    holds a result exactly when the submit stored an attendee, which is then
    the one appended to the file, with the badge payload of its id, and the
    form is cleared; otherwise no file has changed, the form keeps its input
    and an error is shown. *)
Theorem register_page_shows_what_is_stored
    (nowId nowCreated : Z) (p : RegisterPage.Page) (w : World) :
  let r := RegisterPage.handleSubmit nowId nowCreated p w in
  match RegisterPage.result (fst r) with
  | Some created =>
      RegisterPage.form (fst r) = RegisterPage.mkForm "" "" "" ""
      /\ RegisterPage.error (fst r) = EmptyString
      /\ Register.qrValue created = "hemisphere:" +:+ Attendee.id (Register.attendee created)
      /\ exists attendees,
           Register.readAttendees (attendeesFile w) = inr attendees
           /\ snd r = setAttendees (Content (attendees ++ [Register.attendee created])) w
  | None =>
      snd r = w
      /\ RegisterPage.form (fst r) = RegisterPage.form p
      /\ RegisterPage.error (fst r) <> EmptyString
  end.
Proof.
  intros r. subst r. unfold RegisterPage.handleSubmit.
  destruct (_ || _); [now repeat split|].
  destruct (register_cases nowId nowCreated (RegisterPage.body (RegisterPage.form p)) w)
    as [[Hw (s & e & Hfail)]|(_ & attendees & Hread & _ & Hr)].
  - rewrite Hfail, Hw. cbn [RegisterPage.result RegisterPage.form RegisterPage.error fst snd].
    repeat split. unfold JS.orElse, JS.truthy.
    destruct (String.eqb_spec e ""); [discriminate|easy].
  - rewrite Hr. cbn [fst snd ok status RegisterPage.result RegisterPage.form RegisterPage.error].
    repeat split. exists attendees. now split.
Qed.

(** Neither the page nor the handler trims before it looks for an email: a
    form whose email is white space is stored with an empty email. *)
Example register_page_blank_email :
  let p := RegisterPage.mkPage (RegisterPage.mkForm "Ada" "Lovelace" "  " "") "" None in
  let r := RegisterPage.handleSubmit 1700000000000 1700000000001 p emptyWorld in
  stored (attendeesFile (snd r))
  = [Attendee.mk "1700000000000" (Some "Ada") (Some "Lovelace") None (Some "") (Some "")
       None (Some 1700000000001%Z) None None]
  /\ RegisterPage.error (fst r) = EmptyString.
Proof. split; reflexivity. Qed.

(** ** The analytics page: hour labels *)

(** X29.  The hour labels of the analytics page tell the 24 hours apart:
    two hours of the day with the same label are the same hour. *)
Theorem format_hour_distinct (h1 h2 : Z) :
  (0 <= h1 < 24)%Z -> (0 <= h2 < 24)%Z ->
  AnalyticsPage.formatHour h1 = AnalyticsPage.formatHour h2 -> h1 = h2.
Proof.
  intros H1 H2 E.
  assert (forall h, (0 <= h < 24)%Z -> In h (List.map Z.of_nat (seq 0 24))) as Hday.
  { intros h Hh. apply in_map_iff. exists (Z.to_nat h). split; [lia|].
    apply in_seq. lia. }
  assert (forallb (fun a =>
            forallb (fun b =>
              implb (String.eqb (AnalyticsPage.formatHour a) (AnalyticsPage.formatHour b))
                    (a =? b)%Z)
              (List.map Z.of_nat (seq 0 24)))
            (List.map Z.of_nat (seq 0 24)) = true) as Hall by (vm_compute; reflexivity).
  rewrite forallb_forall in Hall. specialize (Hall h1 (Hday h1 H1)).
  rewrite forallb_forall in Hall. specialize (Hall h2 (Hday h2 H2)).
  apply String.eqb_eq in E. rewrite E in Hall. now apply Z.eqb_eq.
Qed.

Lemma format_hour_distinct_witness :
  ((0 <= 0 < 24)%Z /\ (0 <= 0 < 24)%Z
   /\ AnalyticsPage.formatHour 0 = AnalyticsPage.formatHour 0)
  /\ 0%Z = 0%Z
  /\ AnalyticsPage.formatHour 0 = "12 AM"
  /\ AnalyticsPage.formatHour 12 = "12 PM"
  /\ AnalyticsPage.formatHour 23 = "11 PM".
Proof.
  split; [repeat split; lia|]. split; [|repeat split].
  exact (format_hour_distinct 0 0 ltac:(lia) ltac:(lia) eq_refl).
Defined.

(** ** Login links, continued *)

Lemma valid_after_prune now t token email uuid expires (tokens : list TokenRecord.t) :
  (now <= t)%Z -> token <> uuid ->
  ExhibitorLeads.isTokenValid t token
    (List.filter (fun r => (now <? TokenRecord.expiresAt r)%Z) tokens
     ++ [TokenRecord.mk email uuid expires])
  = ExhibitorLeads.isTokenValid t token tokens.
Proof.
  intros Hlater Hother. unfold ExhibitorLeads.isTokenValid.
  induction tokens as [|r tokens IH]; simpl.
  - destruct (String.eqb_spec uuid token); [now subst|reflexivity].
  - destruct (Z.ltb_spec now (TokenRecord.expiresAt r)) as [Hkeep|Hdrop]; simpl.
    + now rewrite IH.
    + rewrite IH.
      assert ((t <? TokenRecord.expiresAt r)%Z = false) as -> by (apply Z.ltb_ge; lia).
      now rewrite andb_false_r.
Qed.

(** X30.  A new login link revokes no other: at any time from the request
    on, the portal answers a request that carries another token than the new
    one exactly as it would have without the new link, whatever the outcome of
    the link request. *)
Theorem new_link_keeps_other_tokens
    (now t : Z) (uuid : string) (email : option string) (request : Request unit)
    (w : World) :
  (now <= t)%Z ->
  ExhibitorLeads.bearer (JS.orElse (authorization request) "") <> uuid ->
  fst (ExhibitorLeads.GET t request (snd (RequestLink.POST now uuid email w)))
  = fst (ExhibitorLeads.GET t request w).
Proof.
  intros Hlater Hother.
  destruct (String.eqb_spec (RequestLink.normalizeEmail email) "") as [Hblank|Hemail].
  { unfold RequestLink.POST. now rewrite Hblank. }
  destruct (RequestLink.readTokens (tokensFile w)) as [e|tokens] eqn:Hread.
  { unfold RequestLink.POST.
    destruct (String.eqb_spec (RequestLink.normalizeEmail email) ""); [easy|].
    now rewrite Hread. }
  rewrite (request_link_issued now uuid email w tokens Hemail Hread). cbn [snd].
  unfold ExhibitorLeads.GET.
  destruct (String.eqb (ExhibitorLeads.bearer (JS.orElse (authorization request) "")) "");
    [reflexivity|].
  change (ExhibitorLeads.readTokens (tokensFile w))
    with (RequestLink.readTokens (tokensFile w)).
  rewrite Hread. cbn [setTokens tokensFile leadsFile ExhibitorLeads.readTokens readJson].
  rewrite (valid_after_prune now t _ _ _ _ tokens Hlater Hother).
  destruct (ExhibitorLeads.isTokenValid t _ tokens); [|reflexivity].
  now destruct (ExhibitorLeads.readLeads (leadsFile w)).
Qed.

Lemma new_link_keeps_other_tokens_witness :
  let w := mkWorld Missing Missing (Content [boothLead]) (Content [staleToken; liveToken]) in
  let request := portalRequest "t-new" in
  ((2000 <= 4000)%Z
   /\ ExhibitorLeads.bearer (JS.orElse (authorization request) "") <> "t-next")
  /\ fst (ExhibitorLeads.GET 4000 request
            (snd (RequestLink.POST 2000 "t-next" (Some "next@x.com") w)))
     = fst (ExhibitorLeads.GET 4000 request w)
  /\ status (fst (ExhibitorLeads.GET 4000 request w)) = 200%nat
  /\ stored (tokensFile (snd (RequestLink.POST 2000 "t-next" (Some "next@x.com") w)))
     = [liveToken; TokenRecord.mk "next@x.com" "t-next" 3602000].
Proof.
  intros w request. split; [split; [lia|discriminate]|]. split; [|split; reflexivity].
  exact (new_link_keeps_other_tokens 2000 4000 "t-next" (Some "next@x.com") request w
           ltac:(lia) ltac:(discriminate)).
Defined.
